(** * sgCheckup: the report package ([internal/report/report.go])

    A shallow embedding of the security-group risk classifier, of the row
    ordering and of the report assembly, with the properties of the
    specification proved on it.

    Conventions of the embedding:
    - a Go [string] is a [string] (a sequence of bytes), a Go [int] is a [Z]
      (port numbers and ranks stay far below the 64-bit bounds), a slice is a
      [list], a [nil] slice argument is [None];
    - a Go function returning [(T, error)] returns a [result T]; a run-time
      panic (index out of range) is the third outcome [Panic];
    - the database is a record of the answers it gives to the calls that
      [Generate] makes, in the order it makes them. *)

From Stdlib Require Import ZArith Ascii String DecimalString.
From stdpp Require Import base option list strings gmap sorting.

Local Open Scope Z_scope.

(** ** Errors and outcomes *)

(** An [error] value: one made by a collaborator or by [errors.New], or a
    cause wrapped by [errors.Wrap] / [errors.Wrapf] with a message. *)
Inductive error : Type :=
| errNew (msg : string)
| errWrap (cause : error) (msg : string).

(** [err.Error()]: a wrapped error prints as [msg: cause]. *)
Fixpoint errorText (e : error) : string :=
  match e with
  | errNew msg => msg
  | errWrap cause msg => msg +:+ ": " +:+ errorText cause
  end.

Inductive result (A : Type) : Type :=
| Ok (a : A)
| Err (e : error)
| Panic.
Arguments Ok {A} a.
Arguments Err {A} e.
Arguments Panic {A}.

#[global] Instance result_bind : MBind result := λ A B k m,
  match m with
  | Ok a => k a
  | Err e => Err e
  | Panic => Panic
  end.

(** [x, err := m; if err != nil { return nil, errors.Wrap(err, msg) }] *)
Definition orWrap {A} (m : result A) (msg : string) : result A :=
  match m with
  | Ok a => Ok a
  | Err e => Err (errWrap e msg)
  | Panic => Panic
  end.

(** [s[i]] on a slice: defined in bounds, a panic out of bounds. *)
Definition index {A} (l : list A) (i : nat) : result A :=
  match l !! i with
  | Some a => Ok a
  | None => Panic
  end.

(** ** Library functions used by the package *)

(** [strings.Split(s, sep)] for a one-byte separator: the fields between
    the occurrences of [sep]; always at least one field. *)
Fixpoint Split (s : string) (sep : ascii) : list string :=
  match s with
  | EmptyString => [EmptyString]
  | String c s' =>
      if Ascii.eqb c sep then EmptyString :: Split s' sep
      else match Split s' sep with
           | field :: fields => String c field :: fields
           | [] => [String c EmptyString]
           end
  end.

(** [strings.HasPrefix(s, prefix)] *)
Definition HasPrefix (s prefix : string) : bool := String.prefix prefix s.

(** [strings.Join(elems, sep)] *)
Fixpoint Join (elems : list string) (sep : string) : string :=
  match elems with
  | [] => ""
  | [e] => e
  | e :: rest => e +:+ sep +:+ Join rest sep
  end.

(** [fmt.Sprintf("%v", n)] for an [int]. *)
Definition formatInt (n : Z) : string := NilZero.string_of_int (Z.to_int n).

(** [fmt.Sprintf("%v", l)] for a [[]string]. *)
Definition formatStrings (l : list string) : string := "[" +:+ Join l " " +:+ "]".

(** ** The multirange package

    [internal/multirange] is imported by the report package and is a
    separate package. The report package uses five things of it, which are
    taken as a parameter: the functions of the report package and the
    theorems on them are stated for every implementation of this
    interface. *)
Class MultiRangePkg : Type := {
  MultiRange : Type;
  (** [&multirange.MultiRange{}], the empty value *)
  emptyMultiRange : MultiRange;
  (** [multirange.FromString(text)] *)
  FromString : string → error + MultiRange;
  (** [mr.RemoveElement(n)], as the value of [mr] after the call *)
  RemoveElement : MultiRange → Z → MultiRange;
  (** [mr.Size()] *)
  Size : MultiRange → Z;
  (** [mr.Humanize()] *)
  Humanize : MultiRange → string;
  (** Modelled from the spec: [Size()] returns 0 for the empty set. *)
  Size_emptyMultiRange : Size emptyMultiRange = 0;
}.

(** ** The rows of the analysis query and of the report *)

Record securityGroupRow : Type := {
  arn : string;
  groupName : string;
  ips : list string;
  inUse : bool;
  isDefault : bool;
  portRanges : list string;
  isLargePublicBlock : bool;
  largeRangeCount : bool;
  isRestricted : bool;
  internalOnly : bool;
}.

Record Row : Type := {
  Arn : string;
  Name : string;
  Status : string;
  PublicIps : list string;
  InUse : bool;
  IsDefault : bool;
  Notes : list string;
}.

Definition isProblematic (r : securityGroupRow) : bool :=
  if largeRangeCount r then true
  else if isLargePublicBlock r then true
  else false.

Definition defaultSafePorts : list Z := [22; 80; 443].

Section Classifier.
Context `{MR : MultiRangePkg}.

(** [for _, port := range safePorts { mr.RemoveElement(port) }] *)
Definition removeAll (mr : MultiRange) (safePorts : list Z) : MultiRange :=
  foldl RemoveElement mr safePorts.

Definition unsafePorts (r : securityGroupRow) (safePorts : list Z)
  : result MultiRange :=
  match portRanges r with
  | first :: _ =>
      match FromString first with
      | inl err =>
          Err (errWrap err
                 ("Failed to parse port range " +:+ formatStrings (portRanges r)))
      | inr mr => Ok (removeAll mr safePorts)
      end
  | [] => Ok emptyMultiRange
  end.

Definition notes (r : securityGroupRow) (unsafePorts : MultiRange) : list string :=
  let notes := [] in
  let notes :=
    if (0 <? Size unsafePorts) && negb (internalOnly r)
    then notes ++ ["Allows traffic from anywhere on TCP ports ("
                     +:+ Humanize unsafePorts +:+ ")"]
    else notes in
  let notes :=
    if isLargePublicBlock r
    then notes ++ ["Has IP restrictions, but they let through large ranges"]
    else notes in
  let notes :=
    if largeRangeCount r then notes ++ ["Uses a lot of IP Ranges"] else notes in
  let notes :=
    if negb (inUse r) then notes ++ ["Not in use"] else notes in
  let notes :=
    if (0 <? length (ips r))%nat
    then notes ++ ["Contains " +:+ formatInt (Z.of_nat (length (ips r)))
                     +:+ " public IP address(es)"]
    else notes ++ ["No public IP addresses found"] in
  notes.

(** The status chosen in the body of the loop of
    [analyzeSecurityGroupResults]. *)
Definition rowStatus (row : securityGroupRow) (unsafePorts : MultiRange) : string :=
  if isDefault row then
    if inUse row then
      if isRestricted row || internalOnly row || (length (ips row) =? 0)%nat
      then "yellow" else "red"
    else
      if isRestricted row then "green" else "yellow"
  else
    if inUse row then
      if isRestricted row
         || (negb (isProblematic row) && (Size unsafePorts =? 0))
      then "green"
      else if (length (ips row) =? 0)%nat then "yellow"
      else "red"
    else "yellow".

(** One iteration of the loop: the report row appended for [row]. *)
Definition analyzeRow (row : securityGroupRow) (safePorts : list Z) : result Row :=
  unsafePorts ← orWrap (unsafePorts row safePorts)
                  "Failed to calculate unsafe ports";
  let status := rowStatus row unsafePorts in
  Ok {| Arn := arn row;
        Name := groupName row;
        Status := status;
        PublicIps := ips row;
        InUse := inUse row;
        IsDefault := isDefault row;
        Notes := notes row unsafePorts |}.

(** The loop, with [reportRows] as its accumulator. *)
Fixpoint analyzeLoop (results : list securityGroupRow) (safePorts : list Z)
    (reportRows : list Row) : result (list Row) :=
  match results with
  | [] => Ok reportRows
  | row :: rest =>
      reportRow ← analyzeRow row safePorts;
      analyzeLoop rest safePorts (reportRows ++ [reportRow])
  end.

Definition analyzeSecurityGroupResults (results : list securityGroupRow)
    (safePorts : list Z) : result (list Row) :=
  analyzeLoop results safePorts [].

End Classifier.

(** ** Ordering of the report rows *)

Definition statusIndex : gmap string Z :=
  {[ "red" := 0; "yellow" := 1; "green" := 2 ]}.

(** [statusIndex[s]]: reading a Go map at a missing key gives the zero
    value. *)
Definition statusIndexAt (s : string) : Z := default 0 (statusIndex !! s).

Definition arnRegion (arn : string) : result string :=
  let parts := Split arn ":" in
  index parts 3.

(** Sort by status first, then region, then name. *)
Definition sortRowsLess (a b : Row) : result bool :=
  if String.eqb (Status a) (Status b) then
    aRegion ← arnRegion (Arn a);
    bRegion ← arnRegion (Arn b);
    if String.eqb aRegion bRegion then Ok (String.ltb (Name a) (Name b))
    else Ok (String.ltb aRegion bRegion)
  else
    let aIndex := statusIndexAt (Status a) in
    let bIndex := statusIndexAt (Status b) in
    Ok (aIndex <? bIndex).

(** [sort.SliceStable]. The library sorts a slice of up to 20 elements by
    insertion: [for i := 1; i < n; i++ { for j := i; j > 0 &&
    less(j, j-1); j-- { swap(j, j-1) } }]; longer slices are sorted in
    blocks of 20 that are then merged. The model is the insertion sort on
    every length: it makes the comparisons of the library up to 20 elements,
    and where [less] never panics and is a strict weak order the result of a
    stable sort does not depend on the algorithm ([stable_sort_unique]
    below).

    [insertLast less x sorted] moves [x = data[i]] down into the sorted
    prefix, given from its last element to its first. *)
Fixpoint insertLast {A} (less : A → A → result bool) (x : A) (sorted : list A)
    : result (list A) :=
  match sorted with
  | [] => Ok [x]
  | y :: below =>
      lt ← less x y;
      if lt : bool then (placed ← insertLast less x below; Ok (y :: placed))
      else Ok (x :: y :: below)
  end.

Fixpoint insertionSort {A} (less : A → A → result bool) (data sorted : list A)
    : result (list A) :=
  match data with
  | [] => Ok sorted
  | x :: rest =>
      sorted' ← insertLast less x sorted;
      insertionSort less rest sorted'
  end.

Definition SliceStable {A} (less : A → A → result bool) (data : list A)
    : result (list A) :=
  sorted ← insertionSort less data [];
  Ok (reverse sorted).

(** ** The report and the database *)

(** [time.Time], as an instant. *)
Definition Time : Type := Z.

Record Metadata : Type := {
  Imported : Time;
  Generated : Time;
  Account : string;
  Organization : string;
}.

Record Report : Type := {
  ReportMetadata : Metadata;
  Rows : list Row;
}.

(** What the outside world answers to the calls of [Generate]: the
    database behind the connection string, the query files embedded with
    pkger, and the clock. Log output is not modelled. *)
Record World : Type := {
  (** [sql.Open("postgres", connectionString)]: its error, if any *)
  sqlOpen : string → option error;
  (** [db.Ping()] *)
  dbPing : option error;
  (** [pkger.Open(filename)] then [ioutil.ReadAll]: the text of the file,
      or the error of opening it, or the error of reading it *)
  pkgerOpen : string → error + (error + string);
  (** [db.Exec(query)] *)
  dbExec : string → option error;
  (** [db.Query(query)] read as security groups: the error of the query, or
      for each row in turn what [rows.Scan] gives *)
  querySecurityGroups : string → error + list (error + securityGroupRow);
  (** [db.Query(query)] read as import jobs *)
  queryImports : string → error + list (error + Time * string);
  (** [time.Now()] *)
  timeNow : Time;
}.

Definition ofError {A} (r : error + A) : result A :=
  match r with
  | inl err => Err err
  | inr a => Ok a
  end.

Definition loadQuery (w : World) (name : string) : result string :=
  let filename := "/queries/" +:+ name +:+ ".sql" in
  match pkgerOpen w filename with
  | inl err => Err (errWrap err ("Failed to open " +:+ filename))
  | inr f =>
      match f with
      | inl err => Err (errWrap err ("Failed to read " +:+ filename))
      | inr bytes => Ok bytes
      end
  end.

Definition installDbFunctions (w : World) : result unit :=
  match loadQuery w "rfc1918" with
  | Err _ => Err (errNew "Failed to load sql for is_rfc1918block")
  | Panic => Panic
  | Ok isRFC1918 =>
      match dbExec w isRFC1918 with
      | Some err => Err err
      | None => Ok tt
      end
  end.

(** [for rows.Next() { ... rows.Scan(...) ... results = append(results, row) }] *)
Fixpoint scanSecurityGroups (rows : list (error + securityGroupRow))
    (results : list securityGroupRow) : result (list securityGroupRow) :=
  match rows with
  | [] => Ok results
  | inl err :: _ => Err (errWrap err "Failed to unmarshal a row")
  | inr row :: rest => scanSecurityGroups rest (results ++ [row])
  end.

Definition runSecurityGroupQuery (w : World) : result (list securityGroupRow) :=
  analysisQuery ← orWrap (loadQuery w "security_groups")
                    "Failed to to load analysis query";
  rows ← orWrap (ofError (querySecurityGroups w analysisQuery))
           "DB error analyzing";
  scanSecurityGroups rows [].

Definition loadMetadata (w : World) (reportRows : list Row) : result Metadata :=
  query ← orWrap (loadQuery w "most_recent_import") "failed to load query";
  queryRows ← orWrap (ofError (queryImports w query))
                "Failed to query for most recent import";
  match queryRows with
  | [] => Err (errNew "Query for most recent import job found no results")
  | scanned :: _ =>
      '(endDate, organization) ←
        orWrap (ofError scanned) "Failed to read most recent import job row";
      first ← index reportRows 0;
      let arn := Arn first in
      let parts := Split arn ":" in
      accountID ← index parts 4;
      let organization :=
        if HasPrefix organization "OrgDummy" then "<NONE>" else organization in
      Ok {| Imported := endDate;
            Generated := timeNow w;
            Account := accountID;
            Organization := organization |}
  end.

Section Generate.
Context `{MR : MultiRangePkg}.

Definition Generate (w : World) (connectionString : string)
    (safePorts : option (list Z)) : result Report :=
  match sqlOpen w connectionString with
  | Some err => Err (errWrap err "Failed to connect to db")
  | None =>
      match dbPing w with
      | Some err => Err (errWrap err "Failed to ping db")
      | None =>
          _ ← orWrap (installDbFunctions w) "Failed to install fixture functions";
          rows ← orWrap (runSecurityGroupQuery w) "Failed to run analysis query";
          let safePorts :=
            match safePorts with
            | None => defaultSafePorts
            | Some ports => ports
            end in
          reportRows ← orWrap (analyzeSecurityGroupResults rows safePorts)
                         "Failed to generate report from query results";
          reportRows ← SliceStable sortRowsLess reportRows;
          metadata ← orWrap (loadMetadata w reportRows) "Failed to load metadata";
          Ok {| Rows := reportRows; ReportMetadata := metadata |}
      end
  end.

End Generate.

(** ** An implementation of the multirange interface

    The theorems on the report package hold for every implementation of
    the interface. The one below follows the description of the package in
    the specification, and serves to run the report on concrete security
    groups. *)
Module multirange.

(** Modelled from the spec: the PortRange of the data model, which is
    inclusive on both ends (the package itself is missing). *)
Record PortRange : Type := { rangeStart : Z; rangeEnd : Z }.

(** Modelled from the spec: a MultiRange is an ordered sequence of
    PortRange, sorted, disjoint and non-touching; the empty sequence is
    the empty set. *)
Definition MultiRange : Type := list PortRange.

(** Modelled from the spec: the value of a decimal digit, for the integers
    of the multirange format (the parser of the package is missing). *)
Definition digit (c : ascii) : option Z :=
  let n := Z.of_N (N_of_ascii c) in
  if (48 <=? n) && (n <=? 57) then Some (n - 48) else None.

(** Modelled from the spec: the digits of an integer, read in base 10. *)
Fixpoint parseDigits (s : string) (acc : Z) : option Z :=
  match s with
  | EmptyString => Some acc
  | String c s' => d ← digit c; parseDigits s' (10 * acc + d)
  end.

(** Modelled from the spec: "a single integer N" is a non-empty run of
    decimal digits. *)
Definition parseInt (s : string) : option Z :=
  match s with
  | EmptyString => None
  | _ => parseDigits s 0
  end.

(** Modelled from the spec: ranges are inserted in canonical form,
    merged if adjacent or overlapping. *)
Fixpoint addRange (a b : Z) (m : MultiRange) : MultiRange :=
  match m with
  | [] => [{| rangeStart := a; rangeEnd := b |}]
  | r :: rest =>
      if b + 1 <? rangeStart r
      then {| rangeStart := a; rangeEnd := b |} :: r :: rest
      else if rangeEnd r + 1 <? a then r :: addRange a b rest
      else addRange (Z.min a (rangeStart r)) (Z.max b (rangeEnd r)) rest
  end.

(** Modelled from the spec: the ParseError of a token that is not of the
    format; the text of the error of the package is not known. *)
Definition parseError (token : string) : error :=
  errNew ("ParseError: " +:+ token).

(** Modelled from the spec: a token is either [N] or [N-M], and [N > M]
    is refused. *)
Definition parseToken (token : string) : error + Z * Z :=
  match Split token "-" with
  | [n] =>
      match parseInt n with
      | Some a => inr (a, a)
      | None => inl (parseError token)
      end
  | [n; m] =>
      match parseInt n, parseInt m with
      | Some a, Some b => if b <? a then inl (parseError token) else inr (a, b)
      | _, _ => inl (parseError token)
      end
  | _ => inl (parseError token)
  end.

(** Modelled from the spec: the tokens are inserted one after the other,
    and the first one that is refused fails the parse. *)
Fixpoint addTokens (tokens : list string) (m : MultiRange) : error + MultiRange :=
  match tokens with
  | [] => inr m
  | token :: rest =>
      match parseToken token with
      | inl err => inl err
      | inr (a, b) => addTokens rest (addRange a b m)
      end
  end.

(** Modelled from the spec: FromString parses a comma-separated list of
    tokens. *)
Definition FromString (text : string) : error + MultiRange :=
  addTokens (Split text ",") [].

(** Modelled from the spec: RemoveElement splits the range that holds
    [n] into [[start, n-1]] and [[n+1, end]], dropping an empty half, and
    does nothing when [n] is outside all ranges. *)
Fixpoint RemoveElement (m : MultiRange) (n : Z) : MultiRange :=
  match m with
  | [] => []
  | r :: rest =>
      if (rangeStart r <=? n) && (n <=? rangeEnd r) then
        (if rangeStart r <=? n - 1
         then [{| rangeStart := rangeStart r; rangeEnd := n - 1 |}] else [])
        ++ (if n + 1 <=? rangeEnd r
            then [{| rangeStart := n + 1; rangeEnd := rangeEnd r |}] else [])
        ++ rest
      else r :: RemoveElement rest n
  end.

(** Modelled from the spec: Size is the sum over the ranges of
    [end - start + 1], and 0 for the empty set. *)
Fixpoint Size (m : MultiRange) : Z :=
  match m with
  | [] => 0
  | r :: rest => (rangeEnd r - rangeStart r + 1) + Size rest
  end.

(** Modelled from the spec: the rendering of one range. *)
Definition humanizeRange (r : PortRange) : string :=
  if rangeStart r =? rangeEnd r then formatInt (rangeStart r)
  else formatInt (rangeStart r) +:+ "-" +:+ formatInt (rangeEnd r).

(** Modelled from the spec: Humanize renders a singleton range as one
    number, the others as [start-end], joined by a comma and a space. *)
Definition Humanize (m : MultiRange) : string :=
  Join (humanizeRange <$> m) ", ".

End multirange.

Definition specMultiRange : MultiRangePkg := {|
  MultiRange := multirange.MultiRange;
  emptyMultiRange := [];
  FromString := multirange.FromString;
  RemoveElement := multirange.RemoveElement;
  Size := multirange.Size;
  Humanize := multirange.Humanize;
  Size_emptyMultiRange := eq_refl;
|}.

(** ** The specification's own wording, to compare the code with *)

(** The decision table of the classifier: its rows in their stated order,
    each with the value of [isDefault], the value of [inUse], the
    condition and the status. A fact is problematic iff [largeRangeCount]
    or [isLargePublicBlock]. *)
Definition decisionTable (fact : securityGroupRow) (unsafeSize : Z)
    : list (bool * bool * bool * string) :=
  let problematic := largeRangeCount fact || isLargePublicBlock fact in
  let ipsEmpty := bool_decide (ips fact = []) in
  [ (true, true, isRestricted fact || internalOnly fact || ipsEmpty, "yellow");
    (true, true, true, "red");
    (true, false, isRestricted fact, "green");
    (true, false, true, "yellow");
    (false, true,
      isRestricted fact || (negb problematic && bool_decide (unsafeSize = 0)),
      "green");
    (false, true, ipsEmpty, "yellow");
    (false, true, true, "red");
    (false, false, true, "yellow") ].

(** The status of the first row of the table that applies to the fact. *)
Fixpoint firstApplicable (fact : securityGroupRow)
    (table : list (bool * bool * bool * string)) : option string :=
  match table with
  | [] => None
  | (isDefault', inUse', condition, status) :: rest =>
      if bool_decide (isDefault fact = isDefault' ∧ inUse fact = inUse'
                      ∧ condition = true)
      then Some status
      else firstApplicable fact rest
  end.

Definition tableStatus (fact : securityGroupRow) (unsafeSize : Z) : option string :=
  firstApplicable fact (decisionTable fact unsafeSize).

(** A note that is appended only if its predicate holds. *)
Definition noteIf (predicate : bool) (note : string) : list string :=
  if predicate then [note] else [].

(** Severity rank: red = 0 < yellow = 1 < green = 2. *)
Definition severityRank (status : string) : option Z :=
  if bool_decide (status = "red") then Some 0
  else if bool_decide (status = "yellow") then Some 1
  else if bool_decide (status = "green") then Some 2
  else None.

(** The composite key of a row: severity rank, then the region, which is
    the field of index 3 of the ARN split at its colons, then the name. *)
Definition sortKey (r : Row) : option (Z * string * string) :=
  rank ← severityRank (Status r);
  region ← Split (Arn r) ":" !! 3%nat;
  Some (rank, region, Name r).

(** Strings in lexicographic order of their bytes. *)
Definition stringLt (s1 s2 : string) : Prop := String.compare s1 s2 = Lt.

Definition keyLt (k1 k2 : Z * string * string) : Prop :=
  let '(rank1, region1, name1) := k1 in
  let '(rank2, region2, name2) := k2 in
  rank1 < rank2
  ∨ (rank1 = rank2
     ∧ (stringLt region1 region2 ∨ (region1 = region2 ∧ stringLt name1 name2))).

(** [output] is [input] stable-sorted by the composite key: the same rows,
    in ascending order of their keys, rows of equal key in their input
    order. *)
Definition stableSortedByKey (input output : list Row) : Prop :=
  output ≡ₚ input
  ∧ (∀ (i j : nat) (a b : Row), (i < j)%nat →
       output !! i = Some a → output !! j = Some b →
       ∃ ka kb, sortKey a = Some ka ∧ sortKey b = Some kb ∧ ¬ keyLt kb ka)
  ∧ (∀ k, filter (λ r, sortKey r = Some k) output
          = filter (λ r, sortKey r = Some k) input).

(** The number of colon-delimited fields of an ARN. *)
Definition arnFields (arn : string) : nat := length (Split arn ":").

(** The order of the composite keys as a test, and extended to rows without
    a key (which come first). *)
Definition keyLtb (k1 k2 : Z * string * string) : bool :=
  let '(rank1, region1, name1) := k1 in
  let '(rank2, region2, name2) := k2 in
  (rank1 <? rank2)
  || ((rank1 =? rank2)
      && (String.ltb region1 region2
          || (String.eqb region1 region2 && String.ltb name1 name2))).

Definition optionKeyLtb (o1 o2 : option (Z * string * string)) : bool :=
  match o1, o2 with
  | Some k1, Some k2 => keyLtb k1 k2
  | None, Some _ => true
  | _, None => false
  end.

(** A row that the ordering can compare with any other: its status is one
    of the three colours and its ARN has a region field. *)
Definition comparable (r : Row) : Prop := is_Some (sortKey r).

(** The note on unsafe ports, around the rendering of the set. *)
Definition portNote (humanized : string) : string :=
  "Allows traffic from anywhere on TCP ports (" +:+ humanized +:+ ")".

(** The notes of the specification, in their fixed order; the port note
    is given the size of the unsafe-port set and its rendering. *)
Definition specNotes (fact : securityGroupRow) (unsafeSize : Z)
    (humanized : string) : list string :=
  noteIf (bool_decide (0 < unsafeSize) && negb (internalOnly fact))
    (portNote humanized)
  ++ noteIf (isLargePublicBlock fact)
       "Has IP restrictions, but they let through large ranges"
  ++ noteIf (largeRangeCount fact) "Uses a lot of IP Ranges"
  ++ noteIf (negb (inUse fact)) "Not in use"
  ++ [ if bool_decide (ips fact ≠ [])
       then "Contains " +:+ formatInt (Z.of_nat (length (ips fact)))
              +:+ " public IP address(es)"
       else "No public IP addresses found" ].

(** ** A database and a few security groups to run the report on *)

(** A database that answers every call: the query files exist, the analysis
    query returns [facts], and the most recent import is of a dummy
    organization. *)
Definition exampleWorld (facts : list securityGroupRow) : World := {|
  sqlOpen := λ _, None;
  dbPing := None;
  pkgerOpen := λ filename, inr (inr ("-- " +:+ filename));
  dbExec := λ _, None;
  querySecurityGroups := λ _, inr (inr <$> facts);
  queryImports := λ _, inr [inr (1600000000, "OrgDummy-7")];
  timeNow := 1700000000;
|}.

(** An unused group with a large public block. *)
Definition factB : securityGroupRow := {|
  arn := "arn:aws:ec2:us-east-1:111111111111:security-group/sg-0b";
  groupName := "b"; ips := []; inUse := false; isDefault := false;
  portRanges := []; isLargePublicBlock := true; largeRangeCount := false;
  isRestricted := false; internalOnly := false |}.

(** A default group in use. *)
Definition factA : securityGroupRow := {|
  arn := "arn:aws:ec2:us-west-2:222222222222:security-group/sg-0a";
  groupName := "a"; ips := ["1.2.3.4"]; inUse := true; isDefault := true;
  portRanges := ["443"]; isLargePublicBlock := false; largeRangeCount := false;
  isRestricted := false; internalOnly := false |}.

(** A group in use that opens the ports 20 to 25. *)
Definition factZ : securityGroupRow := {|
  arn := "arn:aws:ec2:us-east-1:333333333333:security-group/sg-0z";
  groupName := "z"; ips := ["5.6.7.8"; "9.9.9.9"]; inUse := true;
  isDefault := false;
  portRanges := ["20-25"]; isLargePublicBlock := false; largeRangeCount := false;
  isRestricted := false; internalOnly := false |}.

(** A group whose port-range text does not parse. *)
Definition factBad : securityGroupRow := {|
  arn := "arn:aws:ec2:us-east-1:333333333333:security-group/sg-0x";
  groupName := "x"; ips := []; inUse := true; isDefault := false;
  portRanges := ["5-2"]; isLargePublicBlock := false; largeRangeCount := false;
  isRestricted := false; internalOnly := false |}.

(** A group whose ARN has a single field. *)
Definition factShort : securityGroupRow := {|
  arn := "sg-0s";
  groupName := "s"; ips := []; inUse := false; isDefault := false;
  portRanges := []; isLargePublicBlock := false; largeRangeCount := false;
  isRestricted := false; internalOnly := false |}.

Definition exampleFacts : list securityGroupRow := [factB; factA; factZ].

Definition rowB : Row := {|
  Arn := "arn:aws:ec2:us-east-1:111111111111:security-group/sg-0b";
  Name := "b"; Status := "yellow"; PublicIps := []; InUse := false;
  IsDefault := false;
  Notes := ["Has IP restrictions, but they let through large ranges";
            "Not in use"; "No public IP addresses found"] |}.

Definition rowA : Row := {|
  Arn := "arn:aws:ec2:us-west-2:222222222222:security-group/sg-0a";
  Name := "a"; Status := "red"; PublicIps := ["1.2.3.4"]; InUse := true;
  IsDefault := true;
  Notes := ["Allows traffic from anywhere on TCP ports (443)";
            "Contains 1 public IP address(es)"] |}.

Definition rowZ : Row := {|
  Arn := "arn:aws:ec2:us-east-1:333333333333:security-group/sg-0z";
  Name := "z"; Status := "red"; PublicIps := ["5.6.7.8"; "9.9.9.9"];
  InUse := true; IsDefault := false;
  Notes := ["Allows traffic from anywhere on TCP ports (20-21, 23-25)";
            "Contains 2 public IP address(es)"] |}.

(** The rows of [exampleFacts] classified with the safe port 22, before
    they are sorted. *)
Definition exampleRows : list Row := [rowB; rowA; rowZ].

(** The report on [exampleFacts] with the safe port 22. *)
Definition exampleReport : Report := {|
  ReportMetadata := {| Imported := 1600000000; Generated := 1700000000;
                       Account := "333333333333"; Organization := "<NONE>" |};
  Rows := [rowZ; rowA; rowB] |}.

(** ** Notions used to state further properties of the package *)

(** The number of occurrences of the byte [sep] in [s]. *)
Fixpoint countByte (sep : ascii) (s : string) : nat :=
  match s with
  | EmptyString => 0
  | String c s' => (if Ascii.eqb c sep then 1 else 0) + countByte sep s'
  end.

(** The fact [fact] with its [internalOnly] flag set to [flag]. *)
Definition withInternalOnly (flag : bool) (fact : securityGroupRow)
    : securityGroupRow :=
  {| arn := arn fact; groupName := groupName fact; ips := ips fact;
     inUse := inUse fact; isDefault := isDefault fact;
     portRanges := portRanges fact;
     isLargePublicBlock := isLargePublicBlock fact;
     largeRangeCount := largeRangeCount fact;
     isRestricted := isRestricted fact; internalOnly := flag |}.

(** The messages with which [Generate] wraps the error of a stage. *)
Definition stageMessages : list string :=
  [ "Failed to connect to db"; "Failed to ping db";
    "Failed to install fixture functions"; "Failed to run analysis query";
    "Failed to generate report from query results";
    "Failed to load metadata" ].

(** The names of the query files that the package embeds. *)
Definition queryFiles : list string :=
  [ "/queries/rfc1918.sql"; "/queries/security_groups.sql";
    "/queries/most_recent_import.sql" ].

(** A restricted group in use that opens every port. *)
Definition factG : securityGroupRow := {|
  arn := "arn:aws:ec2:eu-west-1:444444444444:security-group/sg-0g";
  groupName := "g"; ips := ["10.0.0.1"]; inUse := true; isDefault := false;
  portRanges := ["0-65535"]; isLargePublicBlock := false;
  largeRangeCount := false; isRestricted := true; internalOnly := false |}.

Definition rowG : Row := {|
  Arn := "arn:aws:ec2:eu-west-1:444444444444:security-group/sg-0g";
  Name := "g"; Status := "green"; PublicIps := ["10.0.0.1"]; InUse := true;
  IsDefault := false;
  Notes := ["Allows traffic from anywhere on TCP ports (0-21, 23-65535)";
            "Contains 1 public IP address(es)"] |}.

(** The database of [exampleWorld], with no other embedded file than the
    three query files. *)
Definition queriesOnlyWorld (facts : list securityGroupRow) : World := {|
  sqlOpen := λ _, None;
  dbPing := None;
  pkgerOpen := λ filename,
    if bool_decide (filename ∈ queryFiles)
    then inr (inr ("-- " +:+ filename))
    else inl (errNew "file does not exist");
  dbExec := λ _, None;
  querySecurityGroups := λ _, inr (inr <$> facts);
  queryImports := λ _, inr [inr (1600000000, "OrgDummy-7")];
  timeNow := 1700000000;
|}.

(** The database of [exampleWorld], without the query file of the database
    functions. *)
Definition noFunctionsWorld (facts : list securityGroupRow) : World := {|
  sqlOpen := λ _, None;
  dbPing := None;
  pkgerOpen := λ filename,
    if String.eqb filename "/queries/rfc1918.sql"
    then inl (errNew "file does not exist")
    else inr (inr ("-- " +:+ filename));
  dbExec := λ _, None;
  querySecurityGroups := λ _, inr (inr <$> facts);
  queryImports := λ _, inr [inr (1600000000, "OrgDummy-7")];
  timeNow := 1700000000;
|}.

(** * Properties *)

(** ** The classifier *)

Section ClassifierProperties.
Context `{MR : MultiRangePkg}.

Lemma analyzeRow_Ok fact safePorts row :
  analyzeRow fact safePorts = Ok row →
  ∃ unsafe, unsafePorts fact safePorts = Ok unsafe
    ∧ row = {| Arn := arn fact; Name := groupName fact;
               Status := rowStatus fact unsafe; PublicIps := ips fact;
               InUse := inUse fact; IsDefault := isDefault fact;
               Notes := notes fact unsafe |}.
Proof.
  unfold analyzeRow. destruct (unsafePorts fact safePorts) as [u|e| ]; simpl;
    intros H; try discriminate.
  exists u. split; [done|]. by injection H.
Qed.

Lemma analyzeLoop_Ok results safePorts reportRows rows :
  analyzeLoop results safePorts reportRows = Ok rows →
  ∃ new, rows = reportRows ++ new
    ∧ Forall2 (λ fact row, analyzeRow fact safePorts = Ok row) results new.
Proof.
  revert reportRows. induction results as [|fact rest IH]; intros acc; simpl.
  - intros [= <-]. exists []. by rewrite app_nil_r.
  - destruct (analyzeRow fact safePorts) as [row|e| ] eqn:Hrow; simpl;
      try discriminate.
    intros (new & -> & Hnew)%IH. exists (row :: new).
    rewrite <- app_assoc. split; [done|]. by constructor.
Qed.

Lemma analyzeSecurityGroupResults_Ok results safePorts rows :
  analyzeSecurityGroupResults results safePorts = Ok rows →
  Forall2 (λ fact row, analyzeRow fact safePorts = Ok row) results rows.
Proof.
  intros (new & -> & Hnew)%analyzeLoop_Ok. done.
Qed.

Lemma analyzeSecurityGroupResults_length results safePorts rows :
  analyzeSecurityGroupResults results safePorts = Ok rows →
  length rows = length results.
Proof.
  intros H%analyzeSecurityGroupResults_Ok. symmetry. by eapply Forall2_length.
Qed.

Lemma rowStatus_table fact unsafe :
  tableStatus fact (Size unsafe) = Some (rowStatus fact unsafe).
Proof.
  unfold tableStatus, decisionTable, rowStatus, isProblematic.
  destruct fact as [a g i u d p lb lr re io]; simpl.
  assert (Hips : bool_decide (i = []) = (length i =? 0)%nat) by by destruct i.
  assert (Hsz : bool_decide (Size unsafe = 0) = (Size unsafe =? 0)).
  { destruct (Z.eqb_spec (Size unsafe) 0) as [->|Hne]; [done|].
    by apply bool_decide_eq_false. }
  rewrite Hips, Hsz.
  destruct d, u, re, io, lr, lb, (length i =? 0)%nat, (Size unsafe =? 0);
    reflexivity.
Qed.

Lemma notes_specNotes fact unsafe :
  notes fact unsafe = specNotes fact (Size unsafe) (Humanize unsafe).
Proof.
  unfold notes, specNotes, noteIf.
  assert (Hsz : bool_decide (0 < Size unsafe) = (0 <? Size unsafe)).
  { destruct (Z.ltb_spec 0 (Size unsafe)).
    - by apply bool_decide_eq_true.
    - apply bool_decide_eq_false. lia. }
  assert (Hips : bool_decide (ips fact ≠ []) = (0 <? length (ips fact))%nat)
    by by destruct (ips fact).
  rewrite Hsz, Hips.
  destruct ((0 <? Size unsafe) && negb (internalOnly fact)),
    (isLargePublicBlock fact), (largeRangeCount fact), (negb (inUse fact)),
    (0 <? length (ips fact))%nat; reflexivity.
Qed.

Lemma specNotes_nonempty fact size text : specNotes fact size text ≠ [].
Proof.
  unfold specNotes. intros H.
  repeat (apply app_eq_nil in H; destruct H as [_ H]). discriminate.
Qed.

(** C1. Every report row carries the status that the decision table
    gives, read in its stated order, for the fact it comes from and for
    the size of that fact's unsafe-port set; the problematic flag of the
    code is [largeRangeCount] or [isLargePublicBlock]. *)
Theorem C1_status_follows_decision_table results safePorts rows :
  analyzeSecurityGroupResults results safePorts = Ok rows →
  Forall2 (λ fact row,
    ∃ unsafe, unsafePorts fact safePorts = Ok unsafe
      ∧ tableStatus fact (Size unsafe) = Some (Status row)
      ∧ isProblematic fact = largeRangeCount fact || isLargePublicBlock fact)
    results rows.
Proof.
  intros H%analyzeSecurityGroupResults_Ok.
  eapply Forall2_impl; [exact H|]. simpl.
  intros fact row (unsafe & Hu & ->)%analyzeRow_Ok.
  exists unsafe. split_and!; [done|apply rowStatus_table|].
  unfold isProblematic.
  by destruct (largeRangeCount fact), (isLargePublicBlock fact).
Qed.

(** C2. The notes of every report row are the notes of the
    specification in their fixed order (port note, large public block,
    many ranges, not in use, then exactly one of the two notes on public
    IP addresses), so no row is without a note. *)
Theorem C2_notes_in_fixed_order results safePorts rows :
  analyzeSecurityGroupResults results safePorts = Ok rows →
  Forall2 (λ fact row,
    ∃ unsafe, unsafePorts fact safePorts = Ok unsafe
      ∧ Notes row = specNotes fact (Size unsafe) (Humanize unsafe)
      ∧ Notes row ≠ []) results rows.
Proof.
  intros H%analyzeSecurityGroupResults_Ok.
  eapply Forall2_impl; [exact H|]. simpl.
  intros fact row (unsafe & Hu & ->)%analyzeRow_Ok.
  exists unsafe. simpl. rewrite notes_specNotes.
  split_and!; [done|done|apply specNotes_nonempty].
Qed.

(** C10. Classification passes the other fields through: the i-th row
    before sorting has the ARN, name, public IPs, in-use flag and
    default flag of the i-th fact. *)
Theorem C10_classification_frame results safePorts rows :
  analyzeSecurityGroupResults results safePorts = Ok rows →
  Forall2 (λ fact row,
    Arn row = arn fact ∧ Name row = groupName fact
    ∧ PublicIps row = ips fact ∧ InUse row = inUse fact
    ∧ IsDefault row = isDefault fact) results rows.
Proof.
  intros H%analyzeSecurityGroupResults_Ok.
  eapply Forall2_impl; [exact H|]. simpl.
  by intros fact row (unsafe & Hu & ->)%analyzeRow_Ok.
Qed.

End ClassifierProperties.

(** ** Sorting by insertion *)

Lemma StronglySorted_reverse {A} (R : relation A) (l : list A) :
  StronglySorted R l → StronglySorted (flip R) (reverse l).
Proof.
  induction 1 as [|x l Hl IH Hx]; [constructor|].
  rewrite reverse_cons. apply StronglySorted_app. split_and!.
  - intros x1 x2 Hx1 Hx2. rewrite elem_of_reverse in Hx1.
    apply list_elem_of_singleton in Hx2 as ->.
    rewrite Forall_forall in Hx. unfold flip. by apply Hx.
  - done.
  - repeat constructor.
Qed.

Lemma StronglySorted_lookup {A} (R : relation A) (l : list A) i j a b :
  StronglySorted R l → (i < j)%nat →
  l !! i = Some a → l !! j = Some b → R a b.
Proof.
  intros Hl. revert i j. induction Hl as [|x l Hl IH Hx]; intros i j Hij Hi Hj.
  - done.
  - destruct j as [|j]; [lia|]. simpl in Hj. destruct i as [|i]; simpl in Hi.
    + injection Hi as ->. rewrite Forall_forall in Hx.
      apply Hx. by eapply list_elem_of_lookup_2.
    + apply (IH i j); [lia|done|done].
Qed.

Section InsertionSort.
Context {A K : Type} `{!EqDecision K}.
Context (key : A → K) (klt : K → K → bool).
Context (less : A → A → result bool) (valid : A → Prop).
Hypothesis klt_irrefl : ∀ k, klt k k = false.
Hypothesis klt_trans : ∀ a b c, klt a b = true → klt b c = true → klt a c = true.
Hypothesis klt_total : ∀ a b, klt a b = false → klt b a = false → a = b.
Hypothesis less_key :
  ∀ x y, valid x → valid y → less x y = Ok (klt (key x) (key y)).

Lemma klt_asym a b : klt a b = true → klt b a = false.
Proof.
  intros Hab. destruct (klt b a) eqn:Hba; [|done].
  by rewrite <- (klt_irrefl a), (klt_trans a b a).
Qed.

Lemma klt_neg_trans a b c : klt a b = false → klt b c = false → klt a c = false.
Proof.
  intros Hab Hbc. destruct (klt a c) eqn:Hac; [|done].
  destruct (klt b a) eqn:Hba.
  - by rewrite <- Hbc, (klt_trans b a c).
  - rewrite (klt_total a b Hab Hba) in Hac. congruence.
Qed.

Lemma insertLast_spec x sorted :
  valid x → Forall valid sorted → StronglySorted (λ a b, klt (key a) (key b) = false) sorted →
  ∃ out, insertLast less x sorted = Ok out
    ∧ out ≡ₚ x :: sorted
    ∧ StronglySorted (λ a b, klt (key a) (key b) = false) out
    ∧ ∀ k, filter (λ r, key r = k) out = filter (λ r, key r = k) (x :: sorted).
Proof.
  intros Hx. induction sorted as [|y below IH]; intros Hvalid Hsorted; simpl.
  - exists [x]. split_and!; [done|done|repeat constructor|done].
  - apply Forall_cons in Hvalid as [Hy Hbelow].
    apply StronglySorted_cons in Hsorted as [Hyb Hsorted].
    rewrite (less_key x y Hx Hy). simpl.
    destruct (klt (key x) (key y)) eqn:Hxy.
    + destruct (IH Hbelow Hsorted) as (placed & -> & Hperm & Hdesc & Hfilter).
      simpl. exists (y :: placed). split_and!.
      * done.
      * rewrite Hperm. apply Permutation_swap.
      * apply StronglySorted_cons. split; [|done].
        rewrite Hperm. apply Forall_cons. split; [|done]. by apply klt_asym.
      * intros k. rewrite filter_cons, Hfilter, !filter_cons.
        repeat case_decide; try done. subst. congruence.
    + exists (x :: y :: below). split_and!; [done|done| |done].
      apply StronglySorted_cons. split.
      * apply Forall_cons. split; [done|].
        eapply Forall_impl; [exact Hyb|]. simpl. intros z Hz.
        by apply (klt_neg_trans _ (key y)).
      * by apply StronglySorted_cons.
Qed.

Lemma insertionSort_spec data sorted :
  Forall valid data → Forall valid sorted → StronglySorted (λ a b, klt (key a) (key b) = false) sorted →
  ∃ out, insertionSort less data sorted = Ok out
    ∧ out ≡ₚ reverse data ++ sorted
    ∧ StronglySorted (λ a b, klt (key a) (key b) = false) out
    ∧ ∀ k, filter (λ r, key r = k) out
           = filter (λ r, key r = k) (reverse data ++ sorted).
Proof.
  revert sorted. induction data as [|x rest IH]; intros sorted Hdata Hvalid Hsorted.
  - exists sorted. by split_and!.
  - apply Forall_cons in Hdata as [Hx Hrest]. simpl.
    destruct (insertLast_spec x sorted Hx Hvalid Hsorted)
      as (sorted' & -> & Hperm & Hdesc & Hfilter). simpl.
    destruct (IH sorted' Hrest) as (out & -> & Hperm' & Hdesc' & Hfilter').
    { by rewrite Hperm; constructor. }
    { done. }
    exists out. rewrite reverse_cons, <- app_assoc. simpl. split_and!.
    + done.
    + by rewrite Hperm', Hperm.
    + done.
    + intros k. by rewrite Hfilter', !filter_app, Hfilter.
Qed.

(** On valid elements [SliceStable] returns: a permutation of its input,
    in ascending order of the keys, elements of equal key in their input
    order. *)
Lemma SliceStable_spec data :
  Forall valid data →
  ∃ out, SliceStable less data = Ok out
    ∧ out ≡ₚ data
    ∧ StronglySorted (λ a b, klt (key b) (key a) = false) out
    ∧ ∀ k, filter (λ r, key r = k) out = filter (λ r, key r = k) data.
Proof.
  intros Hdata. unfold SliceStable.
  destruct (insertionSort_spec data [] Hdata) as (sorted & -> & Hperm & Hdesc & Hfilter).
  { constructor. }
  { constructor. }
  simpl. exists (reverse sorted). rewrite app_nil_r in *. split_and!.
  - done.
  - by rewrite reverse_Permutation, Hperm, reverse_Permutation.
  - by apply StronglySorted_reverse in Hdesc.
  - intros k. by rewrite filter_reverse, Hfilter, <- filter_reverse, reverse_involutive.
Qed.

(** A stable sort has one result: two lists in ascending order of the
    keys that hold, for every key, the same elements in the same order, are
    equal. The result of [SliceStable] is therefore the result of any
    other stable sorting algorithm. *)
Lemma stable_sort_unique (l1 l2 : list A) :
  StronglySorted (λ a b, klt (key b) (key a) = false) l1 →
  StronglySorted (λ a b, klt (key b) (key a) = false) l2 →
  (∀ k, filter (λ r, key r = k) l1 = filter (λ r, key r = k) l2) →
  l1 = l2.
Proof.
  intros H1. revert l2. induction H1 as [|a l1 Hl1 IH Ha]; intros l2 H2 Hfilter.
  - destruct l2 as [|b l2]; [done|].
    specialize (Hfilter (key b)). by rewrite filter_cons_True in Hfilter.
  - destruct l2 as [|b l2].
    { specialize (Hfilter (key a)). by rewrite filter_cons_True in Hfilter. }
    apply StronglySorted_cons in H2 as [Hb H2].
    assert (key a = key b) as Hkey.
    { apply klt_total.
      - destruct (decide (key a = key b)) as [->|Hne]; [done|].
        assert (a ∈ b :: l2) as Hin.
        { apply (list_elem_of_filter (λ r, key r = key a)).
          rewrite <- Hfilter, filter_cons_True by done. left. }
        apply elem_of_cons in Hin as [->|Hin]; [done|].
        rewrite Forall_forall in Hb. by apply Hb.
      - destruct (decide (key a = key b)) as [<-|Hne]; [done|].
        assert (b ∈ a :: l1) as Hin.
        { apply (list_elem_of_filter (λ r, key r = key b)).
          rewrite Hfilter, filter_cons_True by done. left. }
        apply elem_of_cons in Hin as [->|Hin]; [done|].
        rewrite Forall_forall in Ha. by apply Ha. }
    pose proof (Hfilter (key a)) as Hhead.
    rewrite !filter_cons_True in Hhead by done.
    injection Hhead as -> Htail. f_equal. apply IH; [done|].
    intros k. specialize (Hfilter k). rewrite !filter_cons in Hfilter.
    case_decide; [by injection Hfilter|done].
Qed.

End InsertionSort.

(** ** The order of the rows *)

Lemma string_compare_refl s : String.compare s s = Eq.
Proof.
  pose proof (String.compare_antisym s s) as H.
  by destruct (String.compare s s).
Qed.

Lemma ascii_compare_trans a b c :
  Ascii.compare a b = Lt → Ascii.compare b c = Lt → Ascii.compare a c = Lt.
Proof.
  unfold Ascii.compare. rewrite !N.compare_lt_iff. lia.
Qed.

Lemma string_compare_trans s1 s2 s3 :
  String.compare s1 s2 = Lt → String.compare s2 s3 = Lt →
  String.compare s1 s3 = Lt.
Proof.
  revert s2 s3. induction s1 as [|a s1 IH]; intros [|b s2] [|c s3]; simpl;
    try done.
  destruct (Ascii.compare a b) eqn:Hab; try done.
  - apply Ascii.compare_eq_iff in Hab as ->.
    destruct (Ascii.compare b c); try done. apply IH.
  - destruct (Ascii.compare b c) eqn:Hbc; try done.
    + apply Ascii.compare_eq_iff in Hbc as ->. by rewrite Hab.
    + by rewrite (ascii_compare_trans a b c).
Qed.

Lemma string_ltb_lt s1 s2 : String.ltb s1 s2 = true ↔ stringLt s1 s2.
Proof.
  unfold String.ltb, stringLt. by destruct (String.compare s1 s2).
Qed.

Lemma string_ltb_irrefl s : String.ltb s s = false.
Proof. unfold String.ltb. by rewrite string_compare_refl. Qed.

Lemma string_ltb_trans s1 s2 s3 :
  String.ltb s1 s2 = true → String.ltb s2 s3 = true → String.ltb s1 s3 = true.
Proof. rewrite !string_ltb_lt. apply string_compare_trans. Qed.

Lemma string_ltb_total s1 s2 :
  String.ltb s1 s2 = false → String.ltb s2 s1 = false → s1 = s2.
Proof.
  unfold String.ltb. rewrite (String.compare_antisym s2 s1).
  destruct (String.compare s1 s2) eqn:H; try done.
  intros _ _. by apply String.compare_eq_iff.
Qed.

Lemma keyLtb_lt k1 k2 : keyLtb k1 k2 = true ↔ keyLt k1 k2.
Proof.
  destruct k1 as [[r1 g1] n1], k2 as [[r2 g2] n2]. unfold keyLtb, keyLt.
  rewrite orb_true_iff, !andb_true_iff, orb_true_iff, andb_true_iff.
  rewrite Z.ltb_lt, Z.eqb_eq, String.eqb_eq, !string_ltb_lt. done.
Qed.

Lemma keyLtb_irrefl k : keyLtb k k = false.
Proof.
  destruct k as [[r g] n]. unfold keyLtb.
  by rewrite Z.ltb_irrefl, Z.eqb_refl, String.eqb_refl, !string_ltb_irrefl.
Qed.

Lemma keyLtb_trans k1 k2 k3 :
  keyLtb k1 k2 = true → keyLtb k2 k3 = true → keyLtb k1 k3 = true.
Proof.
  rewrite !keyLtb_lt.
  destruct k1 as [[r1 g1] n1], k2 as [[r2 g2] n2], k3 as [[r3 g3] n3].
  unfold keyLt, stringLt.
  intros [H12|[-> [H12|[-> H12]]]] [H23|[-> [H23|[-> H23]]]];
    try (left; lia); right; (split; [done|]);
    try (left; by eauto using string_compare_trans);
    right; (split; [done|]); by eauto using string_compare_trans.
Qed.

Lemma keyLtb_total k1 k2 :
  keyLtb k1 k2 = false → keyLtb k2 k1 = false → k1 = k2.
Proof.
  destruct k1 as [[r1 g1] n1], k2 as [[r2 g2] n2]. unfold keyLtb.
  rewrite !orb_false_iff. intros [Hr12 H12] [Hr21 H21].
  apply Z.ltb_ge in Hr12, Hr21. assert (r1 = r2) as -> by lia.
  rewrite Z.eqb_refl in H12, H21. simpl in H12, H21.
  apply orb_false_iff in H12 as [Hg12 H12], H21 as [Hg21 H21].
  rewrite (string_ltb_total g1 g2 Hg12 Hg21) in *.
  rewrite String.eqb_refl in H12, H21. simpl in H12, H21.
  by rewrite (string_ltb_total n1 n2 H12 H21).
Qed.

Lemma optionKeyLtb_irrefl o : optionKeyLtb o o = false.
Proof. destruct o; [apply keyLtb_irrefl|done]. Qed.

Lemma optionKeyLtb_trans o1 o2 o3 :
  optionKeyLtb o1 o2 = true → optionKeyLtb o2 o3 = true →
  optionKeyLtb o1 o3 = true.
Proof. destruct o1, o2, o3; simpl; try done. apply keyLtb_trans. Qed.

Lemma optionKeyLtb_total o1 o2 :
  optionKeyLtb o1 o2 = false → optionKeyLtb o2 o1 = false → o1 = o2.
Proof.
  destruct o1, o2; simpl; try done. intros H12 H21. f_equal.
  by apply keyLtb_total.
Qed.

Lemma severityRank_Some status rank :
  severityRank status = Some rank →
  (status = "red" ∧ rank = 0) ∨ (status = "yellow" ∧ rank = 1)
  ∨ (status = "green" ∧ rank = 2).
Proof.
  unfold severityRank. repeat case_bool_decide; naive_solver.
Qed.

(** On comparable rows the comparison of the code is the order of the
    composite keys. *)
Lemma sortRowsLess_key a b :
  comparable a → comparable b →
  sortRowsLess a b = Ok (optionKeyLtb (sortKey a) (sortKey b)).
Proof.
  intros [ka Ha] [kb Hb]. rewrite Ha, Hb. simpl.
  unfold sortKey in Ha, Hb. unfold sortRowsLess, arnRegion, index.
  destruct (severityRank (Status a)) as [ra|] eqn:Hra; [|done].
  destruct (severityRank (Status b)) as [rb|] eqn:Hrb; [|done].
  simpl in Ha, Hb.
  destruct (Split (Arn a) ":" !! 3%nat) as [ga|]; [|done].
  destruct (Split (Arn b) ":" !! 3%nat) as [gb|]; [|done].
  simpl in Ha, Hb. injection Ha as <-. injection Hb as <-. simpl.
  apply severityRank_Some in Hra as [[-> ->]|[[-> ->]|[-> ->]]],
    Hrb as [[-> ->]|[[-> ->]|[-> ->]]]; simpl; try reflexivity;
    (destruct (String.eqb ga gb) eqn:Hg;
     [apply String.eqb_eq in Hg as ->; by rewrite string_ltb_irrefl
     |by rewrite orb_false_r]).
Qed.

(** Whatever [less] answers, a sort that returns has permuted its input. *)
Lemma insertLast_Permutation {A} (less : A → A → result bool) x sorted out :
  insertLast less x sorted = Ok out → out ≡ₚ x :: sorted.
Proof.
  revert out. induction sorted as [|y below IH]; intros out; simpl.
  - by intros [= <-].
  - destruct (less x y) as [[]|e| ]; simpl; try discriminate.
    + destruct (insertLast less x below) as [placed|e| ]; simpl; try discriminate.
      intros [= <-]. rewrite (IH placed eq_refl). apply Permutation_swap.
    + by intros [= <-].
Qed.

Lemma insertionSort_Permutation {A} (less : A → A → result bool) data sorted out :
  insertionSort less data sorted = Ok out → out ≡ₚ data ++ sorted.
Proof.
  revert sorted. induction data as [|x rest IH]; intros sorted; simpl.
  - by intros [= <-].
  - destruct (insertLast less x sorted) as [sorted'|e| ] eqn:Hins; simpl;
      try discriminate.
    intros ->%IH. apply insertLast_Permutation in Hins as ->.
    by rewrite Permutation_middle.
Qed.

Lemma SliceStable_Permutation {A} (less : A → A → result bool) data out :
  SliceStable less data = Ok out → out ≡ₚ data.
Proof.
  unfold SliceStable.
  destruct (insertionSort less data []) as [sorted|e| ] eqn:Hsort; simpl;
    try discriminate.
  intros [= <-]. apply insertionSort_Permutation in Hsort.
  by rewrite reverse_Permutation, Hsort, app_nil_r.
Qed.

(** The sort of [Generate] on comparable rows. *)
Lemma SliceStable_sortRowsLess rows :
  Forall comparable rows →
  ∃ sorted, SliceStable sortRowsLess rows = Ok sorted
    ∧ stableSortedByKey rows sorted.
Proof.
  intros Hrows.
  destruct (SliceStable_spec sortKey optionKeyLtb sortRowsLess comparable
              optionKeyLtb_irrefl optionKeyLtb_trans optionKeyLtb_total
              sortRowsLess_key rows Hrows)
    as (sorted & Hsort & Hperm & Hsorted & Hstable).
  exists sorted. split; [done|]. split_and!.
  - done.
  - intros i j a b Hij Hi Hj.
    pose proof (StronglySorted_lookup _ _ _ _ _ _ Hsorted Hij Hi Hj) as Hab.
    simpl in Hab.
    assert (comparable a) as [ka Hka].
    { rewrite Forall_forall in Hrows. apply Hrows. rewrite <- Hperm.
      by eapply list_elem_of_lookup_2. }
    assert (comparable b) as [kb Hkb].
    { rewrite Forall_forall in Hrows. apply Hrows. rewrite <- Hperm.
      by eapply list_elem_of_lookup_2. }
    exists ka, kb. split_and!; [done|done|].
    rewrite Hka, Hkb in Hab. simpl in Hab. rewrite <- keyLtb_lt. congruence.
  - intros k. apply (Hstable (Some k)).
Qed.

Lemma filter_none {A} (P : A → Prop) `{!∀ x, Decision (P x)} (l : list A) :
  Forall (λ x, ¬ P x) l → filter P l = [].
Proof. induction 1; [done|]. by rewrite filter_cons_False. Qed.

Lemma StronglySorted_of_lookup {A} (R : relation A) (l : list A) :
  (∀ i j a b, (i < j)%nat → l !! i = Some a → l !! j = Some b → R a b) →
  StronglySorted R l.
Proof.
  induction l as [|x l IH]; intros Hl; constructor.
  - apply IH. intros i j a b Hij Hi Hj. apply (Hl (S i) (S j)); [lia|done|done].
  - apply Forall_forall. intros y [j Hj]%list_elem_of_lookup_1.
    apply (Hl 0%nat (S j)); [lia|done|done].
Qed.

(** The sorted rows are determined by the keys alone: whatever stable
    sorting algorithm orders comparable rows gives the rows that
    [SliceStable] gives. *)
Lemma stableSortedByKey_unique rows sorted1 sorted2 :
  Forall comparable rows →
  stableSortedByKey rows sorted1 → stableSortedByKey rows sorted2 →
  sorted1 = sorted2.
Proof.
  intros Hrows (Hperm1 & Hsorted1 & Hstable1) (Hperm2 & Hsorted2 & Hstable2).
  assert (∀ sorted, sorted ≡ₚ rows →
    (∀ (i j : nat) (a b : Row), (i < j)%nat →
       sorted !! i = Some a → sorted !! j = Some b →
       ∃ ka kb, sortKey a = Some ka ∧ sortKey b = Some kb ∧ ¬ keyLt kb ka) →
    StronglySorted (λ a b, optionKeyLtb (sortKey b) (sortKey a) = false) sorted)
    as Hstrong.
  { intros sorted Hperm Hsorted. apply StronglySorted_of_lookup.
    intros i j a b Hij Hi Hj.
    destruct (Hsorted i j a b Hij Hi Hj) as (ka & kb & -> & -> & Hnlt).
    simpl. rewrite <- keyLtb_lt in Hnlt. by destruct (keyLtb kb ka). }
  apply (stable_sort_unique sortKey optionKeyLtb optionKeyLtb_irrefl
           optionKeyLtb_total); [by auto|by auto|].
  intros [k|]; [by rewrite Hstable1, Hstable2|].
  assert (∀ sorted, sorted ≡ₚ rows →
            Forall (λ r, ¬ sortKey r = None) sorted) as Hnone.
  { intros sorted Hperm. rewrite Hperm.
    eapply Forall_impl; [exact Hrows|]. simpl. intros r [k Hk]. congruence. }
  by rewrite !filter_none by auto.
Qed.

(** Whatever the comparison answers elsewhere, a sort that returns has
    put its input in ascending order of any rank that the answers of the
    comparison respect. *)
Section RankOrder.
Context {A : Type} (rank : A → Z) (less : A → A → result bool).
Hypothesis less_rank :
  ∀ x y answer, less x y = Ok answer →
    if answer : bool then rank x ≤ rank y else rank y ≤ rank x.

Lemma insertLast_rank x sorted out :
  StronglySorted (λ a b, rank b ≤ rank a) sorted →
  insertLast less x sorted = Ok out →
  StronglySorted (λ a b, rank b ≤ rank a) out.
Proof.
  revert out. induction sorted as [|y below IH]; intros out Hsorted; simpl.
  - intros [= <-]. repeat constructor.
  - apply StronglySorted_cons in Hsorted as [Hy Hbelow].
    destruct (less x y) as [[]|e| ] eqn:Hless; simpl; try done.
    + destruct (insertLast less x below) as [placed|e| ] eqn:Hplaced; simpl;
        try done.
      intros [= <-]. apply StronglySorted_cons. split; [|by apply IH].
      rewrite (insertLast_Permutation _ _ _ _ Hplaced).
      apply Forall_cons. split; [|done]. exact (less_rank x y true Hless).
    + intros [= <-]. apply StronglySorted_cons. split.
      * apply Forall_cons. pose proof (less_rank x y false Hless) as Hxy.
        simpl in Hxy. split; [done|].
        eapply Forall_impl; [exact Hy|]. simpl. lia.
      * by apply StronglySorted_cons.
Qed.

Lemma insertionSort_rank data sorted out :
  StronglySorted (λ a b, rank b ≤ rank a) sorted →
  insertionSort less data sorted = Ok out →
  StronglySorted (λ a b, rank b ≤ rank a) out.
Proof.
  revert sorted. induction data as [|x rest IH]; intros sorted Hsorted; simpl.
  - by intros [= <-].
  - destruct (insertLast less x sorted) as [sorted'|e| ] eqn:Hins; simpl;
      try done.
    apply IH. by eapply insertLast_rank.
Qed.

Lemma SliceStable_rank data out :
  SliceStable less data = Ok out →
  StronglySorted (λ a b, rank a ≤ rank b) out.
Proof.
  unfold SliceStable.
  destruct (insertionSort less data []) as [sorted|e| ] eqn:Hsort; simpl;
    try done.
  intros [= <-]. apply insertionSort_rank in Hsort; [|constructor].
  by apply StronglySorted_reverse in Hsort.
Qed.

End RankOrder.

Lemma sortRowsLess_rank a b answer :
  sortRowsLess a b = Ok answer →
  if answer
  then statusIndexAt (Status a) ≤ statusIndexAt (Status b)
  else statusIndexAt (Status b) ≤ statusIndexAt (Status a).
Proof.
  unfold sortRowsLess.
  destruct (String.eqb_spec (Status a) (Status b)) as [->|Hne].
  - intros _. destruct answer; lia.
  - intros [= <-].
    destruct (Z.ltb_spec (statusIndexAt (Status a)) (statusIndexAt (Status b)));
      lia.
Qed.

(** ** Report generation *)

Section GenerateProperties.
Context `{MR : MultiRangePkg}.

Lemma unsafePorts_first fact safePorts first rest mr :
  portRanges fact = first :: rest → FromString first = inr mr →
  unsafePorts fact safePorts = Ok (foldl RemoveElement mr safePorts).
Proof. unfold unsafePorts. by intros -> ->. Qed.

Lemma unsafePorts_parse_error fact safePorts first rest err :
  portRanges fact = first :: rest → FromString first = inl err →
  unsafePorts fact safePorts
  = Err (errWrap err ("Failed to parse port range "
                        +:+ formatStrings (portRanges fact))).
Proof. unfold unsafePorts. by intros -> ->. Qed.

Lemma unsafePorts_none fact safePorts :
  portRanges fact = [] → unsafePorts fact safePorts = Ok emptyMultiRange.
Proof. unfold unsafePorts. by intros ->. Qed.

Lemma unsafePorts_no_panic fact safePorts : unsafePorts fact safePorts ≠ Panic.
Proof.
  unfold unsafePorts. destruct (portRanges fact); [done|].
  by destruct (FromString _).
Qed.

Lemma rowStatus_colour fact unsafe :
  rowStatus fact unsafe = "red" ∨ rowStatus fact unsafe = "yellow"
  ∨ rowStatus fact unsafe = "green".
Proof.
  unfold rowStatus.
  repeat match goal with |- context [if ?b then _ else _] => destruct b end;
    auto.
Qed.

Lemma analyzeRow_comparable fact safePorts row :
  (4 ≤ arnFields (arn fact))%nat →
  analyzeRow fact safePorts = Ok row → comparable row.
Proof.
  intros Hfields (unsafe & _ & ->)%analyzeRow_Ok.
  unfold comparable, sortKey. simpl.
  destruct (lookup_lt_is_Some_2 (Split (arn fact) ":") 3%nat) as [region ->];
    [exact Hfields|].
  destruct (rowStatus_colour fact unsafe) as [-> | [-> | ->]]; by eexists.
Qed.

Lemma analyzed_rows_arnFields n facts safePorts rows :
  Forall (λ fact, (n ≤ arnFields (arn fact))%nat) facts →
  analyzeSecurityGroupResults facts safePorts = Ok rows →
  Forall (λ row, (n ≤ arnFields (Arn row))%nat) rows.
Proof.
  intros Harns Hall%analyzeSecurityGroupResults_Ok. revert Harns.
  induction Hall as [|fact row facts rows Hrow _ IH]; intros Harns;
    [constructor|].
  apply Forall_cons in Harns as [Harn Harns]. constructor; [|by apply IH].
  by apply analyzeRow_Ok in Hrow as (unsafe & _ & ->).
Qed.

Lemma analyzed_rows_comparable facts safePorts rows :
  Forall (λ fact, (4 ≤ arnFields (arn fact))%nat) facts →
  analyzeSecurityGroupResults facts safePorts = Ok rows →
  Forall comparable rows.
Proof.
  intros Harns Hall%analyzeSecurityGroupResults_Ok. revert Harns.
  induction Hall as [|fact row facts rows Hrow _ IH]; intros Harns;
    [constructor|].
  apply Forall_cons in Harns as [Harn Harns]. constructor; [|by apply IH].
  by eapply analyzeRow_comparable.
Qed.

Lemma Generate_Ok w connectionString safePorts report :
  Generate w connectionString safePorts = Ok report →
  ∃ facts rows,
    runSecurityGroupQuery w = Ok facts
    ∧ analyzeSecurityGroupResults facts (default defaultSafePorts safePorts)
      = Ok rows
    ∧ SliceStable sortRowsLess rows = Ok (Rows report)
    ∧ loadMetadata w (Rows report) = Ok (ReportMetadata report).
Proof.
  unfold Generate.
  destruct (sqlOpen w connectionString); [done|].
  destruct (dbPing w); [done|].
  destruct (installDbFunctions w) as [[]|e| ]; simpl; try done.
  destruct (runSecurityGroupQuery w) as [facts|e| ] eqn:Hfacts; simpl; try done.
  replace (match safePorts with Some ports => ports | None => defaultSafePorts end)
    with (default defaultSafePorts safePorts) by by destruct safePorts.
  destruct (analyzeSecurityGroupResults facts _) as [rows|e| ] eqn:Hrows;
    simpl; try done.
  destruct (SliceStable sortRowsLess rows) as [sorted|e| ] eqn:Hsorted;
    simpl; try done.
  destruct (loadMetadata w sorted) as [metadata|e| ] eqn:Hmetadata;
    simpl; try done.
  intros [= <-]. by exists facts, rows.
Qed.

Lemma loadMetadata_Ok w reportRows metadata :
  loadMetadata w reportRows = Ok metadata →
  ∃ first, reportRows !! 0%nat = Some first
    ∧ Split (Arn first) ":" !! 4%nat = Some (Account metadata).
Proof.
  unfold loadMetadata.
  destruct (loadQuery w "most_recent_import") as [query|e| ]; simpl; try done.
  destruct (queryImports w query) as [e|[|scanned queryRows]]; simpl; try done.
  destruct scanned as [e|[endDate organization]]; simpl; try done.
  unfold index.
  destruct (reportRows !! 0%nat) as [first|]; simpl; try done.
  destruct (Split (Arn first) ":" !! 4%nat) as [accountID|] eqn:Haccount;
    simpl; try done.
  intros [= <-]. by exists first.
Qed.

Lemma loadQuery_no_panic w name : loadQuery w name ≠ Panic.
Proof. unfold loadQuery. by destruct (pkgerOpen w _) as [e|[e|text]]. Qed.

Lemma installDbFunctions_no_panic w : installDbFunctions w ≠ Panic.
Proof.
  unfold installDbFunctions. pose proof (loadQuery_no_panic w "rfc1918").
  destruct (loadQuery w "rfc1918"); [|done|done]. by destruct (dbExec w _).
Qed.

Lemma scanSecurityGroups_no_panic rows results :
  scanSecurityGroups rows results ≠ Panic.
Proof.
  revert results. induction rows as [|[e|row] rows IH]; intros results; simpl;
    [done|done|apply IH].
Qed.

Lemma runSecurityGroupQuery_no_panic w : runSecurityGroupQuery w ≠ Panic.
Proof.
  unfold runSecurityGroupQuery.
  pose proof (loadQuery_no_panic w "security_groups").
  destruct (loadQuery w "security_groups") as [query|e| ]; simpl; [|done|done].
  destruct (querySecurityGroups w query) as [e|rows]; simpl; [done|].
  apply scanSecurityGroups_no_panic.
Qed.

Lemma analyzeRow_no_panic fact safePorts : analyzeRow fact safePorts ≠ Panic.
Proof.
  unfold analyzeRow. pose proof (unsafePorts_no_panic fact safePorts).
  by destruct (unsafePorts fact safePorts).
Qed.

Lemma analyzeLoop_no_panic results safePorts reportRows :
  analyzeLoop results safePorts reportRows ≠ Panic.
Proof.
  revert reportRows. induction results as [|fact rest IH]; intros acc; simpl;
    [done|].
  pose proof (analyzeRow_no_panic fact safePorts).
  destruct (analyzeRow fact safePorts); simpl; [apply IH|done|done].
Qed.

Lemma loadMetadata_no_panic w reportRows first :
  reportRows !! 0%nat = Some first → (5 ≤ arnFields (Arn first))%nat →
  loadMetadata w reportRows ≠ Panic.
Proof.
  intros Hfirst Hfields. unfold loadMetadata.
  pose proof (loadQuery_no_panic w "most_recent_import").
  destruct (loadQuery w "most_recent_import") as [query|e| ]; simpl; try done.
  destruct (queryImports w query) as [e|[|scanned queryRows]]; simpl; try done.
  destruct scanned as [e|[endDate organization]]; simpl; try done.
  unfold index. rewrite Hfirst. simpl.
  by destruct (lookup_lt_is_Some_2 (Split (Arn first) ":") 4%nat Hfields)
    as [accountID ->].
Qed.

(** The first fact whose port-range text does not parse stops the loop
    with its error. *)
Lemma analyzeLoop_parse_error results safePorts reportRows :
  Exists (λ fact, ∃ first rest err,
            portRanges fact = first :: rest ∧ FromString first = inl err)
    results →
  ∃ fact first rest err,
    fact ∈ results ∧ portRanges fact = first :: rest
    ∧ FromString first = inl err
    ∧ analyzeLoop results safePorts reportRows
      = Err (errWrap
               (errWrap err ("Failed to parse port range "
                               +:+ formatStrings (portRanges fact)))
               "Failed to calculate unsafe ports").
Proof.
  intros Hfail. revert reportRows.
  induction results as [|fact results IH]; intros acc.
  { by apply Exists_nil in Hfail. }
  simpl. unfold analyzeRow at 1.
  destruct (unsafePorts fact safePorts) as [unsafe|e| ] eqn:Hunsafe; simpl.
  - apply Exists_cons in Hfail as [(first & rest & err & Hp & Hparse)|Hfail].
    { by rewrite (unsafePorts_parse_error _ _ _ _ _ Hp Hparse) in Hunsafe. }
    destruct (IH Hfail (acc ++ [ {| Arn := arn fact; Name := groupName fact;
        Status := rowStatus fact unsafe; PublicIps := ips fact;
        InUse := inUse fact; IsDefault := isDefault fact;
        Notes := notes fact unsafe |} ]))
      as (fact' & first & rest & err & Hin & Hp & Hparse & Hloop).
    exists fact', first, rest, err. split_and!; [by right|done|done|done].
  - unfold unsafePorts in Hunsafe.
    destruct (portRanges fact) as [|first rest] eqn:Hp; [done|].
    destruct (FromString first) as [err|mr] eqn:Hparse; [|done].
    injection Hunsafe as <-.
    exists fact, first, rest, err. rewrite Hp. split_and!; [by left|done|done|done].
  - by apply unsafePorts_no_panic in Hunsafe.
Qed.

End GenerateProperties.

Section ReportTheorems.
Context `{MR : MultiRangePkg}.

(** C3. The unsafe-port set of a fact with a port-range entry is its first
    entry parsed, with each safe port removed in turn; a fact without
    port-range entries has the empty set, of size 0, so its row has no
    port note and is red only as a default group or by a problematic
    flag. *)
Theorem C3_unsafe_port_set fact safePorts :
  (∀ first rest mr,
     portRanges fact = first :: rest → FromString first = inr mr →
     unsafePorts fact safePorts = Ok (foldl RemoveElement mr safePorts))
  ∧ (portRanges fact = [] →
     unsafePorts fact safePorts = Ok emptyMultiRange
     ∧ Size emptyMultiRange = 0
     ∧ ∃ row, analyzeRow fact safePorts = Ok row
         ∧ (∀ text, portNote text ∉ Notes row)
         ∧ (Status row = "red" →
            isDefault fact = true ∨ isProblematic fact = true)).
Proof.
  split.
  - intros first rest mr. apply unsafePorts_first.
  - intros Hnone. pose proof (unsafePorts_none fact safePorts Hnone) as Hunsafe.
    split_and!; [done|apply Size_emptyMultiRange|].
    unfold analyzeRow. rewrite Hunsafe. simpl. eexists. split; [done|]. simpl.
    split.
    + intros text. rewrite notes_specNotes, Size_emptyMultiRange.
      unfold specNotes, noteIf, portNote. simpl.
      destruct (isLargePublicBlock fact), (largeRangeCount fact), (inUse fact),
        (bool_decide (ips fact ≠ [])); simpl; intros Hin;
        repeat (apply elem_of_cons in Hin as [Heq|Hin]; [discriminate Heq|]);
        by apply elem_of_nil in Hin.
    + unfold rowStatus. rewrite Size_emptyMultiRange. simpl.
      destruct (isDefault fact); [by left|].
      destruct (isProblematic fact); [by right|].
      rewrite orb_true_r. by destruct (inUse fact).
Qed.

(** C4. The rows of a report are the classified rows stable-sorted by
    severity rank (red 0, yellow 1, green 2), then by the region at index 3
    of the ARN split at its colons, then by name; rows of equal key keep
    their order. The ARNs are taken to have a region field. *)
Theorem C4_rows_stable_sorted w connectionString safePorts facts report :
  runSecurityGroupQuery w = Ok facts →
  Forall (λ fact, (4 ≤ arnFields (arn fact))%nat) facts →
  Generate w connectionString safePorts = Ok report →
  ∃ rows,
    analyzeSecurityGroupResults facts (default defaultSafePorts safePorts)
    = Ok rows
    ∧ stableSortedByKey rows (Rows report).
Proof.
  intros Hfacts Harns (facts' & rows & Hfacts' & Hrows & Hsort & _)%Generate_Ok.
  rewrite Hfacts in Hfacts'. injection Hfacts' as <-.
  exists rows. split; [done|].
  destruct (SliceStable_sortRowsLess rows) as (sorted & Hsort' & Hsorted).
  - by eapply analyzed_rows_comparable.
  - rewrite Hsort in Hsort'. by injection Hsort' as ->.
Qed.

(** C5. A report has as many rows as there are fetched facts: the
    classifier makes one row per fact and the sort permutes them. *)
Theorem C5_row_count_conservation w connectionString safePorts facts report :
  runSecurityGroupQuery w = Ok facts →
  Generate w connectionString safePorts = Ok report →
  length (Rows report) = length facts
  ∧ ∃ rows,
      analyzeSecurityGroupResults facts (default defaultSafePorts safePorts)
      = Ok rows
      ∧ length rows = length facts
      ∧ Rows report ≡ₚ rows.
Proof.
  intros Hfacts (facts' & rows & Hfacts' & Hrows & Hsort & _)%Generate_Ok.
  rewrite Hfacts in Hfacts'. injection Hfacts' as <-.
  apply SliceStable_Permutation in Hsort.
  pose proof (analyzeSecurityGroupResults_length _ _ _ Hrows) as Hlen.
  split; [by rewrite Hsort|]. by exists rows.
Qed.

(** With at least one fact and ARNs of five fields or more, no stage of
    [Generate] panics. *)
Lemma Generate_returns w connectionString safePorts :
  (∀ facts, runSecurityGroupQuery w = Ok facts →
     facts ≠ [] ∧ Forall (λ fact, (5 ≤ arnFields (arn fact))%nat) facts) →
  (∃ report, Generate w connectionString safePorts = Ok report)
  ∨ (∃ err, Generate w connectionString safePorts = Err err).
Proof.
  intros Hwf. unfold Generate.
  destruct (sqlOpen w connectionString); [by right; eexists|].
  destruct (dbPing w); [by right; eexists|].
  pose proof (installDbFunctions_no_panic w).
  destruct (installDbFunctions w) as [u|e| ]; simpl;
    [|by right; eexists|done].
  pose proof (runSecurityGroupQuery_no_panic w).
  destruct (runSecurityGroupQuery w) as [facts|e| ] eqn:Hfacts; simpl;
    [|by right; eexists|done].
  destruct (Hwf facts eq_refl) as [Hne Harns].
  set (ports := match safePorts with Some p => p | None => defaultSafePorts end).
  pose proof (analyzeLoop_no_panic facts ports []) as Hloop.
  fold (analyzeSecurityGroupResults facts ports) in Hloop.
  destruct (analyzeSecurityGroupResults facts ports) as [rows|e| ] eqn:Hrows;
    simpl; [|by right; eexists|done].
  pose proof (analyzed_rows_arnFields 5 _ _ _ Harns Hrows) as Hrows5.
  assert (Forall comparable rows) as Hcomparable.
  { eapply analyzed_rows_comparable; [|exact Hrows].
    eapply Forall_impl; [exact Harns|]. simpl. lia. }
  destruct (SliceStable_sortRowsLess rows Hcomparable)
    as (sorted & -> & Hperm & _). simpl.
  assert (∃ first, sorted !! 0%nat = Some first) as [first Hfirst].
  { apply lookup_lt_is_Some_2. rewrite Hperm.
    rewrite (analyzeSecurityGroupResults_length _ _ _ Hrows).
    destruct facts; [done|simpl; lia]. }
  assert (5 ≤ arnFields (Arn first))%nat as Hfields.
  { rewrite Forall_forall in Hrows5. apply Hrows5. rewrite <- Hperm.
    by eapply list_elem_of_lookup_2. }
  pose proof (loadMetadata_no_panic w sorted first Hfirst Hfields).
  destruct (loadMetadata w sorted) as [metadata|e| ]; simpl;
    [by left; eexists|by right; eexists|done].
Qed.

(** C6, amended. When at least one fact is fetched and every fact's ARN
    has at least five colon-delimited fields, [Generate] returns a report
    or an error, and for a report the first sorted row exists, its ARN has
    an account field at index 4, and the ARN of every row has a region
    field at index 3. *)
Theorem C6_generate_returns w connectionString safePorts :
  (∀ facts, runSecurityGroupQuery w = Ok facts →
     facts ≠ [] ∧ Forall (λ fact, (5 ≤ arnFields (arn fact))%nat) facts) →
  ((∃ report, Generate w connectionString safePorts = Ok report)
   ∨ (∃ err, Generate w connectionString safePorts = Err err))
  ∧ (∀ report, Generate w connectionString safePorts = Ok report →
       (∃ first account,
          index (Rows report) 0 = Ok first
          ∧ index (Split (Arn first) ":") 4 = Ok account)
       ∧ Forall (λ row, ∃ region, arnRegion (Arn row) = Ok region)
           (Rows report)).
Proof.
  intros Hwf. split; [by apply Generate_returns|].
  intros report (facts & rows & Hfacts & Hrows & Hsort & Hmetadata)%Generate_Ok.
  split.
  - apply loadMetadata_Ok in Hmetadata as (first & Hfirst & Haccount).
    exists first, (Account (ReportMetadata report)). unfold index.
    by rewrite Hfirst, Haccount.
  - destruct (Hwf facts Hfacts) as [_ Harns].
    pose proof (analyzed_rows_arnFields 5 _ _ _ Harns Hrows) as Hrows5.
    apply SliceStable_Permutation in Hsort. rewrite Hsort.
    eapply Forall_impl; [exact Hrows5|]. simpl. intros row Hfields.
    unfold arnRegion, index.
    destruct (lookup_lt_is_Some_2 (Split (Arn row) ":") 3%nat) as [region ->];
      [unfold arnFields in Hfields; lia|].
    by exists region.
Qed.

(** C7. When the port-range text of some fetched fact does not parse,
    [Generate] returns an error and no report; when the stages before the
    classification succeed, it is the parse error of such a fact, wrapped
    with the stages that failed. *)
Theorem C7_parse_failure_aborts w connectionString safePorts facts :
  runSecurityGroupQuery w = Ok facts →
  Exists (λ fact, ∃ first rest err,
            portRanges fact = first :: rest ∧ FromString first = inl err)
    facts →
  (∃ err, Generate w connectionString safePorts = Err err)
  ∧ (sqlOpen w connectionString = None → dbPing w = None →
     installDbFunctions w = Ok () →
     ∃ fact first rest err,
       fact ∈ facts ∧ portRanges fact = first :: rest
       ∧ FromString first = inl err
       ∧ Generate w connectionString safePorts
         = Err (errWrap
                  (errWrap
                     (errWrap err ("Failed to parse port range "
                                     +:+ formatStrings (portRanges fact)))
                     "Failed to calculate unsafe ports")
                  "Failed to generate report from query results")).
Proof.
  intros Hfacts Hfail.
  set (ports := match safePorts with Some p => p | None => defaultSafePorts end).
  destruct (analyzeLoop_parse_error facts ports [] Hfail)
    as (fact & first & rest & err & Hin & Hp & Hparse & Hloop).
  fold (analyzeSecurityGroupResults facts ports) in Hloop.
  split.
  - unfold Generate.
    destruct (sqlOpen w connectionString); [by eexists|].
    destruct (dbPing w); [by eexists|].
    pose proof (installDbFunctions_no_panic w).
    destruct (installDbFunctions w) as [u|e| ]; simpl; [|by eexists|done].
    rewrite Hfacts. simpl. fold ports. rewrite Hloop. simpl. by eexists.
  - intros Hopen Hping Hinstall. exists fact, first, rest, err.
    split_and!; [done|done|done|].
    unfold Generate. rewrite Hopen, Hping, Hinstall, Hfacts. simpl.
    fold ports. by rewrite Hloop.
Qed.


(** C9. The account of the metadata is the field of index 4 of the ARN,
    split at its colons, of the first row of the sorted rows: the rows of
    the report are the classified rows as the sort returns them, the
    account is read from the first of them, and that row has the lowest
    severity rank of all the rows; when every ARN has a region field it
    is moreover first by the whole key (rank, region, name) in the
    stable-sorted rows. *)
Theorem C9_account_from_first_sorted_row w connectionString safePorts report :
  Generate w connectionString safePorts = Ok report →
  ∃ facts rows first,
    runSecurityGroupQuery w = Ok facts
    ∧ analyzeSecurityGroupResults facts (default defaultSafePorts safePorts)
      = Ok rows
    ∧ SliceStable sortRowsLess rows = Ok (Rows report)
    ∧ Rows report !! 0%nat = Some first
    ∧ Split (Arn first) ":" !! 4%nat = Some (Account (ReportMetadata report))
    ∧ (∀ row, row ∈ rows →
         statusIndexAt (Status first) ≤ statusIndexAt (Status row))
    ∧ (Forall (λ fact, (4 ≤ arnFields (arn fact))%nat) facts →
       stableSortedByKey rows (Rows report)
       ∧ ∀ row, row ∈ rows →
           ∃ kfirst krow,
             sortKey first = Some kfirst ∧ sortKey row = Some krow
             ∧ ¬ keyLt krow kfirst).
Proof.
  intros (facts & rows & Hfacts & Hrows & Hsort & Hmetadata)%Generate_Ok.
  apply loadMetadata_Ok in Hmetadata as (first & Hfirst & Haccount).
  pose proof (SliceStable_Permutation _ _ _ Hsort) as Hperm.
  exists facts, rows, first. split_and!; try done.
  - intros row Hin. rewrite <- Hperm in Hin.
    apply list_elem_of_lookup_1 in Hin as [j Hj].
    destruct j as [|j]; [rewrite Hfirst in Hj; injection Hj as ->; lia|].
    pose proof (SliceStable_rank (λ r, statusIndexAt (Status r)) sortRowsLess
                  sortRowsLess_rank _ _ Hsort) as Hsorted.
    apply (StronglySorted_lookup _ _ 0%nat (S j) first row Hsorted);
      [lia|done|done].
  - intros Harns.
    pose proof (analyzed_rows_comparable _ _ _ Harns Hrows) as Hcomparable.
    destruct (SliceStable_sortRowsLess rows Hcomparable)
      as (sorted & Hsort' & Hsorted).
    rewrite Hsort in Hsort'. injection Hsort' as <-.
    split; [done|].
    destruct Hsorted as (_ & Hordered & _).
    intros row Hin. rewrite <- Hperm in Hin.
    apply list_elem_of_lookup_1 in Hin as [j Hj].
    destruct j as [|j]; [|by apply (Hordered 0%nat (S j)); [lia|..]].
    rewrite Hfirst in Hj. injection Hj as ->.
    assert (comparable row) as [k Hk].
    { rewrite Forall_forall in Hcomparable. apply Hcomparable.
      rewrite <- Hperm. by eapply list_elem_of_lookup_2. }
    exists k, k. split_and!; [done|done|].
    rewrite <- keyLtb_lt, keyLtb_irrefl. done.
Qed.

End ReportTheorems.

(** ** The theorems on a concrete report *)

Section Examples.
#[local] Existing Instance specMultiRange.

(** The unsafe ports of the range 20 to 25 with 22 declared safe. *)
Example unsafe_port_exclusion :
  unsafePorts factZ [22]
  = Ok [ {| multirange.rangeStart := 20; multirange.rangeEnd := 21 |};
         {| multirange.rangeStart := 23; multirange.rangeEnd := 25 |} ]
  ∧ multirange.Humanize
      [ {| multirange.rangeStart := 20; multirange.rangeEnd := 21 |};
        {| multirange.rangeStart := 23; multirange.rangeEnd := 25 |} ]
    = "20-21, 23-25"
  ∧ multirange.Size
      [ {| multirange.rangeStart := 20; multirange.rangeEnd := 21 |};
        {| multirange.rangeStart := 23; multirange.rangeEnd := 25 |} ] = 5.
Proof. by vm_compute. Qed.

(** The concrete cases of the decision table and of the order of the
    notes. *)
Example classifier_table_cases :
  rowStatus factA emptyMultiRange = "red"
  ∧ rowStatus {| arn := ""; groupName := ""; ips := []; inUse := false;
                 isDefault := true; portRanges := [];
                 isLargePublicBlock := false; largeRangeCount := false;
                 isRestricted := true; internalOnly := false |}
      emptyMultiRange = "green"
  ∧ rowStatus factB emptyMultiRange = "yellow"
  ∧ notes {| arn := ""; groupName := ""; ips := []; inUse := false;
             isDefault := false; portRanges := ["8080"];
             isLargePublicBlock := true; largeRangeCount := false;
             isRestricted := false; internalOnly := false |}
      [ {| multirange.rangeStart := 8080; multirange.rangeEnd := 8080 |} ]
    = [ "Allows traffic from anywhere on TCP ports (8080)";
        "Has IP restrictions, but they let through large ranges";
        "Not in use";
        "No public IP addresses found" ].
Proof. by vm_compute. Qed.

(** The rows of the example, classified and then sorted. *)
Example example_report :
  analyzeSecurityGroupResults exampleFacts [22] = Ok exampleRows
  ∧ Generate (exampleWorld exampleFacts) "postgres://db" (Some [22])
    = Ok exampleReport.
Proof. by vm_compute. Qed.

Lemma C1_witness :
  analyzeSecurityGroupResults exampleFacts [22] = Ok exampleRows
  ∧ Forall2 (λ fact row,
      ∃ unsafe, unsafePorts fact [22] = Ok unsafe
        ∧ tableStatus fact (Size unsafe) = Some (Status row)
        ∧ isProblematic fact = largeRangeCount fact || isLargePublicBlock fact)
      exampleFacts exampleRows.
Proof.
  split; [reflexivity|].
  apply (C1_status_follows_decision_table exampleFacts [22] exampleRows).
  reflexivity.
Defined.

Lemma C2_witness :
  analyzeSecurityGroupResults exampleFacts [22] = Ok exampleRows
  ∧ Forall2 (λ fact row,
      ∃ unsafe, unsafePorts fact [22] = Ok unsafe
        ∧ Notes row = specNotes fact (Size unsafe) (Humanize unsafe)
        ∧ Notes row ≠ []) exampleFacts exampleRows.
Proof.
  split; [reflexivity|].
  apply (C2_notes_in_fixed_order exampleFacts [22] exampleRows).
  reflexivity.
Defined.

Lemma C3_witness :
  (portRanges factZ = ["20-25"]
   ∧ FromString "20-25"
     = inr [ {| multirange.rangeStart := 20; multirange.rangeEnd := 25 |} ]
   ∧ unsafePorts factZ [22; 80; 443]
     = Ok (foldl RemoveElement
             [ {| multirange.rangeStart := 20; multirange.rangeEnd := 25 |} ]
             [22; 80; 443]))
  ∧ (portRanges factB = []
     ∧ unsafePorts factB [22; 80; 443] = Ok emptyMultiRange
     ∧ Size emptyMultiRange = 0
     ∧ ∃ row, analyzeRow factB [22; 80; 443] = Ok row
         ∧ (∀ text, portNote text ∉ Notes row)
         ∧ (Status row = "red" →
            isDefault factB = true ∨ isProblematic factB = true)).
Proof.
  split.
  - split; [reflexivity|]. split; [reflexivity|].
    apply (proj1 (C3_unsafe_port_set factZ [22; 80; 443]) "20-25" []);
      reflexivity.
  - split; [reflexivity|].
    apply (proj2 (C3_unsafe_port_set factB [22; 80; 443])). reflexivity.
Defined.

Lemma C4_witness :
  (runSecurityGroupQuery (exampleWorld exampleFacts) = Ok exampleFacts
   ∧ Forall (λ fact, (4 ≤ arnFields (arn fact))%nat) exampleFacts
   ∧ Generate (exampleWorld exampleFacts) "postgres://db" (Some [22])
     = Ok exampleReport)
  ∧ ∃ rows,
      analyzeSecurityGroupResults exampleFacts [22] = Ok rows
      ∧ stableSortedByKey rows [rowZ; rowA; rowB].
Proof.
  assert (Forall (λ fact, (4 ≤ arnFields (arn fact))%nat) exampleFacts) as Harns.
  { repeat (apply Forall_cons; split; [vm_compute; lia|]). constructor. }
  split; [split_and!; [reflexivity|exact Harns|reflexivity]|].
  apply (C4_rows_stable_sorted (exampleWorld exampleFacts) "postgres://db"
           (Some [22]) exampleFacts exampleReport);
    [reflexivity|exact Harns|reflexivity].
Defined.

Lemma C5_witness :
  (runSecurityGroupQuery (exampleWorld exampleFacts) = Ok exampleFacts
   ∧ Generate (exampleWorld exampleFacts) "postgres://db" (Some [22])
     = Ok exampleReport)
  ∧ length (Rows exampleReport) = length exampleFacts
  ∧ ∃ rows,
      analyzeSecurityGroupResults exampleFacts [22] = Ok rows
      ∧ length rows = length exampleFacts
      ∧ Rows exampleReport ≡ₚ rows.
Proof.
  split; [split; reflexivity|].
  apply (C5_row_count_conservation (exampleWorld exampleFacts) "postgres://db"
           (Some [22]) exampleFacts exampleReport); reflexivity.
Defined.

(** [Generate] panics on an empty fact sequence (the first row of the
    report does not exist), on an ARN without a field of index 4, and,
    in the sort, on two rows of one status whose ARN has no field of
    index 3. *)
Lemma C6_counterexample :
  Generate (exampleWorld []) "postgres://db" None = Panic
  ∧ (Generate (exampleWorld [factShort]) "postgres://db" None = Panic
     ∧ index (Split (arn factShort) ":") 4 = Panic)
  ∧ (Generate (exampleWorld [factShort; factShort]) "postgres://db" None = Panic
     ∧ (∃ row, analyzeSecurityGroupResults [factShort; factShort] [22; 80; 443]
               = Ok [row; row]
          ∧ sortRowsLess row row = Panic
          ∧ SliceStable sortRowsLess [row; row] = Panic)).
Proof.
  split_and!; try reflexivity. eexists. split_and!; reflexivity.
Qed.

Lemma C6_witness :
  (runSecurityGroupQuery (exampleWorld exampleFacts) = Ok exampleFacts
   ∧ exampleFacts ≠ []
   ∧ Forall (λ fact, (5 ≤ arnFields (arn fact))%nat) exampleFacts)
  ∧ ((∃ report,
        Generate (exampleWorld exampleFacts) "postgres://db" (Some [22])
        = Ok report)
     ∨ (∃ err,
          Generate (exampleWorld exampleFacts) "postgres://db" (Some [22])
          = Err err))
  ∧ (∀ report,
       Generate (exampleWorld exampleFacts) "postgres://db" (Some [22])
       = Ok report →
       (∃ first account,
          index (Rows report) 0 = Ok first
          ∧ index (Split (Arn first) ":") 4 = Ok account)
       ∧ Forall (λ row, ∃ region, arnRegion (Arn row) = Ok region)
           (Rows report)).
Proof.
  assert (Forall (λ fact, (5 ≤ arnFields (arn fact))%nat) exampleFacts) as Harns.
  { repeat (apply Forall_cons; split; [vm_compute; lia|]). constructor. }
  split; [split_and!; [reflexivity|discriminate|exact Harns]|].
  apply (C6_generate_returns (exampleWorld exampleFacts) "postgres://db"
           (Some [22])).
  intros facts Hfacts. vm_compute in Hfacts. injection Hfacts as <-.
  split; [discriminate|exact Harns].
Defined.

Lemma C7_witness :
  (runSecurityGroupQuery (exampleWorld [factB; factBad; factZ])
   = Ok [factB; factBad; factZ]
   ∧ Exists (λ fact, ∃ first rest err,
               portRanges fact = first :: rest ∧ FromString first = inl err)
       [factB; factBad; factZ])
  ∧ (∃ err, Generate (exampleWorld [factB; factBad; factZ]) "postgres://db"
              None = Err err)
  ∧ (sqlOpen (exampleWorld [factB; factBad; factZ]) "postgres://db" = None →
     dbPing (exampleWorld [factB; factBad; factZ]) = None →
     installDbFunctions (exampleWorld [factB; factBad; factZ]) = Ok () →
     ∃ fact first rest err,
       fact ∈ [factB; factBad; factZ] ∧ portRanges fact = first :: rest
       ∧ FromString first = inl err
       ∧ Generate (exampleWorld [factB; factBad; factZ]) "postgres://db" None
         = Err (errWrap
                  (errWrap
                     (errWrap err ("Failed to parse port range "
                                     +:+ formatStrings (portRanges fact)))
                     "Failed to calculate unsafe ports")
                  "Failed to generate report from query results")).
Proof.
  assert (Exists (λ fact, ∃ first rest err,
                    portRanges fact = first :: rest ∧ FromString first = inl err)
            [factB; factBad; factZ]) as Hfail.
  { apply Exists_cons_tl, Exists_cons_hd.
    exists "5-2", [], (multirange.parseError "5-2"). split; reflexivity. }
  split; [split; [reflexivity|exact Hfail]|].
  apply (C7_parse_failure_aborts (exampleWorld [factB; factBad; factZ])
           "postgres://db" None [factB; factBad; factZ]);
    [reflexivity|exact Hfail].
Defined.

(** The error of the example, as [Generate] returns it and as it prints. *)
Example parse_failure_error :
  Generate (exampleWorld [factB; factBad; factZ]) "postgres://db" None
  = Err (errWrap
           (errWrap
              (errWrap (multirange.parseError "5-2")
                 "Failed to parse port range [5-2]")
              "Failed to calculate unsafe ports")
           "Failed to generate report from query results")
  ∧ errorText
      (errWrap
         (errWrap
            (errWrap (multirange.parseError "5-2")
               "Failed to parse port range [5-2]")
            "Failed to calculate unsafe ports")
         "Failed to generate report from query results")
    = "Failed to generate report from query results: Failed to calculate unsafe ports: Failed to parse port range [5-2]: ParseError: 5-2".
Proof. by vm_compute. Qed.


Lemma C9_witness :
  (Generate (exampleWorld exampleFacts) "postgres://db" (Some [22])
   = Ok exampleReport
   ∧ runSecurityGroupQuery (exampleWorld exampleFacts) = Ok exampleFacts
   ∧ analyzeSecurityGroupResults exampleFacts [22] = Ok exampleRows
   ∧ Forall (λ fact, (4 ≤ arnFields (arn fact))%nat) exampleFacts)
  ∧ ∃ first,
      SliceStable sortRowsLess exampleRows = Ok (Rows exampleReport)
      ∧ Rows exampleReport !! 0%nat = Some first
      ∧ Split (Arn first) ":" !! 4%nat
        = Some (Account (ReportMetadata exampleReport))
      ∧ (∀ row, row ∈ exampleRows →
           statusIndexAt (Status first) ≤ statusIndexAt (Status row))
      ∧ stableSortedByKey exampleRows (Rows exampleReport)
      ∧ ∀ row, row ∈ exampleRows →
          ∃ kfirst krow,
            sortKey first = Some kfirst ∧ sortKey row = Some krow
            ∧ ¬ keyLt krow kfirst.
Proof.
  assert (Forall (λ fact, (4 ≤ arnFields (arn fact))%nat) exampleFacts) as Harns.
  { repeat (apply Forall_cons; split; [vm_compute; lia|]). constructor. }
  split; [split_and!; [reflexivity|reflexivity|reflexivity|exact Harns]|].
  assert (Generate (exampleWorld exampleFacts) "postgres://db" (Some [22])
          = Ok exampleReport) as Hreport by reflexivity.
  destruct (C9_account_from_first_sorted_row (exampleWorld exampleFacts)
              "postgres://db" (Some [22]) exampleReport Hreport)
    as (facts & rows & first & Hfacts & Hrows & Hsort & Hfirst & Haccount
        & Hrank & Hkey).
  assert (facts = exampleFacts) as ->
    by (vm_compute in Hfacts; injection Hfacts as <-; reflexivity).
  assert (rows = exampleRows) as ->
    by (vm_compute in Hrows; injection Hrows as <-; reflexivity).
  destruct (Hkey Harns) as [Hsorted Hminimal].
  exists first. split_and!; assumption.
Defined.

(** The account of the example is that of the first sorted row, [rowZ],
    and not that of the first fetched fact, [factB]. *)
Example account_of_first_sorted_row :
  Account (ReportMetadata exampleReport) = "333333333333"
  ∧ Split (arn factB) ":" !! 4%nat = Some "111111111111".
Proof. by vm_compute. Qed.

Lemma C10_witness :
  analyzeSecurityGroupResults exampleFacts [22] = Ok exampleRows
  ∧ Forall2 (λ fact row,
      Arn row = arn fact ∧ Name row = groupName fact
      ∧ PublicIps row = ips fact ∧ InUse row = inUse fact
      ∧ IsDefault row = isDefault fact) exampleFacts exampleRows.
Proof.
  split; [reflexivity|].
  apply (C10_classification_frame exampleFacts [22] exampleRows).
  reflexivity.
Defined.

End Examples.

(** * Further properties of the package *)

(** ** Splitting an ARN at its colons *)

Lemma Split_nonempty s sep : Split s sep ≠ [].
Proof.
  destruct s as [|c s]; simpl; [done|].
  destruct (Ascii.eqb c sep); [done|]. by destruct (Split s sep).
Qed.

Lemma Split_length s sep : length (Split s sep) = S (countByte sep s).
Proof.
  induction s as [|c s IH]; simpl; [done|].
  destruct (Ascii.eqb c sep); simpl; [by rewrite IH|].
  pose proof (Split_nonempty s sep).
  destruct (Split s sep); [done|]. simpl in *. lia.
Qed.

Lemma Split_fields s sep : Forall (λ field, countByte sep field = 0%nat) (Split s sep).
Proof.
  induction s as [|c s IH]; simpl; [by repeat constructor|].
  destruct (Ascii.eqb c sep) eqn:Hc; [by constructor|].
  destruct (Split s sep) as [|field fields]; [by repeat constructor; simpl; rewrite Hc|].
  apply Forall_cons in IH as [Hfield Hfields]. constructor; [|done].
  simpl. by rewrite Hc.
Qed.

(** Joining the fields again gives the string back. *)
Lemma Join_Split s sep : Join (Split s sep) (String sep EmptyString) = s.
Proof.
  induction s as [|c s IH]; simpl; [done|].
  destruct (Ascii.eqb_spec c sep) as [->|Hne].
  - pose proof (Split_nonempty s sep).
    destruct (Split s sep) as [|field fields] eqn:Hs; [done|].
    simpl in *. by rewrite IH.
  - pose proof (Split_nonempty s sep).
    destruct (Split s sep) as [|field fields] eqn:Hs; [done|].
    destruct fields as [|field' fields]; simpl in *; by rewrite <- IH.
Qed.

(** Splitting the join of fields without separator gives the fields back. *)
Lemma Split_Join fields sep :
  fields ≠ [] → Forall (λ field, countByte sep field = 0%nat) fields →
  Split (Join fields (String sep EmptyString)) sep = fields.
Proof.
  assert (∀ field tail, countByte sep field = 0%nat →
            Split (field +:+ String sep tail) sep = field :: Split tail sep)
    as Hsplit_app.
  { induction field as [|c field IH]; intros tail Hfield; simpl.
    - by rewrite Ascii.eqb_refl.
    - simpl in Hfield. destruct (Ascii.eqb c sep); [done|].
      rewrite IH by done. done. }
  assert (∀ field, countByte sep field = 0%nat → Split field sep = [field])
    as Hsplit_one.
  { induction field as [|c field IH]; intros Hfield; simpl; [done|].
    simpl in Hfield. destruct (Ascii.eqb c sep); [done|].
    by rewrite IH. }
  induction fields as [|field fields IH]; intros Hne Hfields; [done|].
  apply Forall_cons in Hfields as [Hfield Hfields].
  destruct fields as [|field' fields]; simpl.
  - by apply Hsplit_one.
  - change (Split (field +:+ String sep (Join (field' :: fields) (String sep EmptyString))) sep
            = field :: field' :: fields).
    rewrite Hsplit_app by done. f_equal. by apply IH.
Qed.

Lemma arnRegion_Panic arn :
  arnRegion arn = Panic ↔ (countByte ":" arn < 3)%nat.
Proof.
  unfold arnRegion, index.
  destruct (Split arn ":" !! 3%nat) as [region|] eqn:Hregion.
  - apply lookup_lt_Some in Hregion. rewrite Split_length in Hregion.
    split; [done|lia].
  - apply lookup_ge_None in Hregion. rewrite Split_length in Hregion.
    split; [lia|done].
Qed.

Lemma arnRegion_no_error arn err : arnRegion arn ≠ Err err.
Proof. unfold arnRegion, index. by destruct (Split arn ":" !! 3%nat). Qed.

(** X1. [arnRegion] panics exactly on the ARNs with fewer than three
    colons, and it never returns an error. *)
Theorem arnRegion_bounds arn :
  (arnRegion arn = Panic ↔ (countByte ":" arn < 3)%nat)
  ∧ ∀ err, arnRegion arn ≠ Err err.
Proof. split; [apply arnRegion_Panic|apply arnRegion_no_error]. Qed.

(** X2. The region of an ARN is the text between its third and its
    fourth colon (or the end of the ARN): [arnRegion] returns [region]
    exactly when the ARN is three colon-free fields, then [region], which
    is colon-free, then any further fields, joined by colons. *)
Theorem arnRegion_between_colons arn region :
  arnRegion arn = Ok region ↔
  ∃ p0 p1 p2 rest,
    Forall (λ field, countByte ":" field = 0%nat) (p0 :: p1 :: p2 :: region :: rest)
    ∧ arn = Join (p0 :: p1 :: p2 :: region :: rest) ":".
Proof.
  unfold arnRegion, index. split.
  - destruct (Split arn ":" !! 3%nat) as [region'|] eqn:Hregion; [|done].
    intros [= ->]. pose proof (Split_fields arn ":") as Hfields.
    pose proof (Join_Split arn ":") as Hjoin.
    destruct (Split arn ":") as [|p0 [|p1 [|p2 [|region' rest]]]]; try done.
    injection Hregion as ->. by exists p0, p1, p2, rest.
  - intros (p0 & p1 & p2 & rest & Hfields & ->).
    change (Join (p0 :: p1 :: p2 :: region :: rest) ":")
      with (Join (p0 :: p1 :: p2 :: region :: rest) (String ":" EmptyString)).
    by rewrite Split_Join.
Qed.

(** ** Further properties of the classifier *)

Section ClassifierExtras.
Context `{MR : MultiRangePkg}.

Lemma analyzeLoop_accumulator results safePorts reportRows :
  analyzeLoop results safePorts reportRows
  = (rows ← analyzeLoop results safePorts []; Ok (reportRows ++ rows)).
Proof.
  revert reportRows. induction results as [|fact rest IH]; intros acc; simpl.
  - by rewrite app_nil_r.
  - destruct (analyzeRow fact safePorts) as [row|e| ]; simpl; [|done|done].
    rewrite (IH (acc ++ [row])), (IH [row]).
    destruct (analyzeLoop rest safePorts []) as [rows|e| ]; simpl; [|done|done].
    by rewrite <- app_assoc.
Qed.

Lemma analyzeSecurityGroupResults_cons fact rest safePorts :
  analyzeSecurityGroupResults (fact :: rest) safePorts
  = (row ← analyzeRow fact safePorts;
     rows ← analyzeSecurityGroupResults rest safePorts;
     Ok (row :: rows)).
Proof.
  unfold analyzeSecurityGroupResults. simpl.
  destruct (analyzeRow fact safePorts) as [row|e| ]; simpl; [|done|done].
  by rewrite analyzeLoop_accumulator.
Qed.

(** X3. Classifying a concatenation is classifying its parts in turn:
    the rows of the first part followed by the rows of the second, or the
    first error met. Each fact is classified on its own. *)
Theorem analyzeSecurityGroupResults_app results1 results2 safePorts :
  analyzeSecurityGroupResults (results1 ++ results2) safePorts
  = (rows1 ← analyzeSecurityGroupResults results1 safePorts;
     rows2 ← analyzeSecurityGroupResults results2 safePorts;
     Ok (rows1 ++ rows2)).
Proof.
  induction results1 as [|fact rest IH].
  - simpl. change (analyzeSecurityGroupResults [] safePorts) with (Ok (@nil Row)).
    simpl. by destruct (analyzeSecurityGroupResults results2 safePorts).
  - rewrite <- app_comm_cons, !analyzeSecurityGroupResults_cons, IH.
    destruct (analyzeRow fact safePorts) as [row|e| ]; simpl; [|done|done].
    destruct (analyzeSecurityGroupResults rest safePorts) as [rows1|e| ];
      simpl; [|done|done].
    by destruct (analyzeSecurityGroupResults results2 safePorts).
Qed.

Lemma analyzeRow_succeeds fact safePorts :
  (∃ row, analyzeRow fact safePorts = Ok row) ↔
  (∀ first rest, portRanges fact = first :: rest →
     ∃ mr, FromString first = inr mr).
Proof.
  unfold analyzeRow, unsafePorts.
  destruct (portRanges fact) as [|first rest]; simpl.
  - split; [done|]. intros _. by eexists.
  - destruct (FromString first) as [err|mr] eqn:Hparse; simpl.
    + split; [by intros [row Hrow]|].
      intros Hall. destruct (Hall first rest eq_refl) as [mr Hmr]. congruence.
    + split; [|intros _; by eexists].
      intros _ first' rest' [= <- <-]. by exists mr.
Qed.

(** X4. The classification succeeds exactly when the first port-range
    entry of every fact that has one parses; the safe ports play no part
    in that, and the classification never panics. *)
Theorem analyzeSecurityGroupResults_succeeds results safePorts :
  ((∃ rows, analyzeSecurityGroupResults results safePorts = Ok rows) ↔
   Forall (λ fact, ∀ first rest, portRanges fact = first :: rest →
                     ∃ mr, FromString first = inr mr) results)
  ∧ analyzeSecurityGroupResults results safePorts ≠ Panic.
Proof.
  split; [|apply analyzeLoop_no_panic].
  induction results as [|fact rest IH].
  - split; [by constructor|]. intros _. by exists [].
  - rewrite analyzeSecurityGroupResults_cons, Forall_cons.
    rewrite <- IH, <- (analyzeRow_succeeds fact safePorts).
    destruct (analyzeRow fact safePorts) as [row|e| ]; simpl.
    + destruct (analyzeSecurityGroupResults rest safePorts) as [rows|e| ];
        simpl.
      * split; [intros _; split; by eexists|intros _; by eexists].
      * split; [by intros [rows Hrows]|]. by intros [_ [rows Hrows]].
      * split; [by intros [rows Hrows]|]. by intros [_ [rows Hrows]].
    + split; [by intros [rows Hrows]|]. by intros [[row Hrow] _].
    + split; [by intros [rows Hrows]|]. by intros [[row Hrow] _].
Qed.

(** X5. Every row of the classification has one of the three statuses of
    the rank table, so that reading [statusIndex] at the status of a
    classified row never misses: red has rank 0, yellow 1 and green 2. *)
Theorem classified_status_ranked results safePorts rows :
  analyzeSecurityGroupResults results safePorts = Ok rows →
  Forall (λ row,
    (Status row = "red" ∧ statusIndex !! Status row = Some 0)
    ∨ (Status row = "yellow" ∧ statusIndex !! Status row = Some 1)
    ∨ (Status row = "green" ∧ statusIndex !! Status row = Some 2)) rows.
Proof.
  intros Hall%analyzeSecurityGroupResults_Ok.
  induction Hall as [|fact row facts rows Hrow _ IH]; constructor; [|done].
  apply analyzeRow_Ok in Hrow as (unsafe & _ & ->). simpl.
  destruct (rowStatus_colour fact unsafe) as [-> | [-> | ->]]; auto.
Qed.

(** X6. A red row is always a group in use, without restriction, that has
    at least one public IP address; a red default group is moreover not
    internal-only. *)
Theorem red_rows results safePorts rows :
  analyzeSecurityGroupResults results safePorts = Ok rows →
  Forall2 (λ fact row,
    Status row = "red" →
    InUse row = true ∧ PublicIps row ≠ [] ∧ isRestricted fact = false
    ∧ (IsDefault row = true → internalOnly fact = false)) results rows.
Proof.
  intros H%analyzeSecurityGroupResults_Ok.
  eapply Forall2_impl; [exact H|]. simpl.
  intros fact row (unsafe & _ & ->)%analyzeRow_Ok. simpl. unfold rowStatus.
  destruct (isDefault fact), (inUse fact), (isRestricted fact),
    (internalOnly fact), (ips fact) as [|ip ips']; simpl; try done;
    destruct (negb (isProblematic fact) && (Size unsafe =? 0)); done.
Qed.

(** X7. A green default group is restricted and not in use; a green group
    that is not the default is in use, and is restricted or else has no
    problematic flag and an unsafe-port set of size 0. *)
Theorem green_rows results safePorts rows :
  analyzeSecurityGroupResults results safePorts = Ok rows →
  Forall2 (λ fact row,
    Status row = "green" →
    (IsDefault row = true → InUse row = false ∧ isRestricted fact = true)
    ∧ (IsDefault row = false →
       InUse row = true
       ∧ (isRestricted fact = true
          ∨ (isProblematic fact = false
             ∧ ∃ unsafe, unsafePorts fact safePorts = Ok unsafe
                 ∧ Size unsafe = 0)))) results rows.
Proof.
  intros H%analyzeSecurityGroupResults_Ok.
  eapply Forall2_impl; [exact H|]. simpl.
  intros fact row (unsafe & Hunsafe & ->)%analyzeRow_Ok. simpl.
  unfold rowStatus.
  destruct (isDefault fact), (inUse fact), (isRestricted fact) eqn:Hr; simpl;
    try (by destruct (internalOnly fact), (ips fact));
    try (intros _; split; [done|]; intros _; split; [done|]; by left).
  destruct (isProblematic fact); simpl; [by destruct (ips fact)|].
  destruct (Z.eqb_spec (Size unsafe) 0) as [Hsize|Hsize];
    [|by destruct (ips fact)].
  intros _. split; [done|]. intros _. split; [done|]. right.
  split; [done|]. by exists unsafe.
Qed.

Lemma unsafePorts_withInternalOnly flag fact safePorts :
  unsafePorts (withInternalOnly flag fact) safePorts
  = unsafePorts fact safePorts.
Proof. done. Qed.

(** X8. The status of a group that is not the default does not depend on
    its [internalOnly] flag: the flag only decides whether the port note
    is written. *)
Theorem status_ignores_internalOnly fact flag safePorts row :
  isDefault fact = false →
  analyzeRow fact safePorts = Ok row →
  ∃ row', analyzeRow (withInternalOnly flag fact) safePorts = Ok row'
    ∧ Status row' = Status row
    ∧ ∀ note, note ∈ Notes row' → note ∈ Notes row ∨
        ∃ unsafe, unsafePorts fact safePorts = Ok unsafe
          ∧ note = portNote (Humanize unsafe).
Proof.
  intros Hdefault (unsafe & Hunsafe & ->)%analyzeRow_Ok.
  unfold analyzeRow. rewrite unsafePorts_withInternalOnly, Hunsafe. simpl.
  eexists. split; [done|]. simpl. split.
  - unfold rowStatus. simpl. by rewrite Hdefault.
  - intros note. rewrite !notes_specNotes. unfold specNotes. simpl.
    rewrite !(elem_of_app (noteIf _ _)). intros [Hport|Hrest]; [|by left; right].
    right. exists unsafe. split; [done|].
    unfold noteIf in Hport.
    destruct (bool_decide (0 < Size unsafe) && negb flag);
      [|by apply elem_of_nil in Hport].
    by apply list_elem_of_singleton in Hport.
Qed.

End ClassifierExtras.

Lemma elem_of_noteIf predicate note x :
  x ∈ noteIf predicate note ↔ predicate = true ∧ x = note.
Proof.
  unfold noteIf. destruct predicate.
  - rewrite list_elem_of_singleton. by split; [|intros [_ Hx]].
  - rewrite elem_of_nil. by split; [|intros [Hp _]].
Qed.

Lemma specNotes_not_in_use fact size text :
  "Not in use" ∈ specNotes fact size text ↔ inUse fact = false.
Proof.
  unfold specNotes, portNote. rewrite !elem_of_app, !elem_of_noteIf.
  rewrite list_elem_of_singleton. split.
  - intros [[_ H]|[[_ H]|[[_ H]|[[H _]|H]]]]; try discriminate H.
    + by destruct (inUse fact).
    + by destruct (bool_decide (ips fact ≠ [])).
  - intros ->. by right; right; right; left.
Qed.

Lemma specNotes_no_public_ip fact size text :
  "No public IP addresses found" ∈ specNotes fact size text ↔ ips fact = [].
Proof.
  unfold specNotes, portNote. rewrite !elem_of_app, !elem_of_noteIf.
  rewrite list_elem_of_singleton. split.
  - intros [[_ H]|[[_ H]|[[_ H]|[[_ H]|H]]]]; try discriminate H.
    by destruct (ips fact).
  - intros ->. by right; right; right; right.
Qed.

Lemma specNotes_length fact size text :
  (1 ≤ length (specNotes fact size text) ≤ 5)%nat.
Proof.
  unfold specNotes, noteIf. rewrite !length_app. simpl.
  destruct (bool_decide (0 < size) && negb (internalOnly fact)),
    (isLargePublicBlock fact), (largeRangeCount fact), (negb (inUse fact));
    simpl; lia.
Qed.

Section NotesExtras.
Context `{MR : MultiRangePkg}.

(** X9. The notes of a row agree with its fields: the note "Not in use" is
    there exactly when the row is not in use, the note "No public IP
    addresses found" exactly when the row has no public IP address, and
    a row has between one and five notes. *)
Theorem notes_agree_with_row results safePorts rows :
  analyzeSecurityGroupResults results safePorts = Ok rows →
  Forall (λ row,
    ("Not in use" ∈ Notes row ↔ InUse row = false)
    ∧ ("No public IP addresses found" ∈ Notes row ↔ PublicIps row = [])
    ∧ (1 ≤ length (Notes row) ≤ 5)%nat) rows.
Proof.
  intros Hall%analyzeSecurityGroupResults_Ok.
  induction Hall as [|fact row facts rows Hrow _ IH]; constructor; [|done].
  apply analyzeRow_Ok in Hrow as (unsafe & _ & ->). simpl.
  rewrite notes_specNotes. split_and!.
  - apply specNotes_not_in_use.
  - apply specNotes_no_public_ip.
  - apply specNotes_length.
  - apply specNotes_length.
Qed.

End NotesExtras.

(** ** Further properties of the order of the rows *)

Lemma sortRowsLess_outcomes a b :
  (sortRowsLess a b = Panic ↔
   Status a = Status b
   ∧ ((countByte ":" (Arn a) < 3)%nat ∨ (countByte ":" (Arn b) < 3)%nat))
  ∧ ∀ err, sortRowsLess a b ≠ Err err.
Proof.
  unfold sortRowsLess.
  destruct (String.eqb_spec (Status a) (Status b)) as [Heq|Hne].
  - pose proof (arnRegion_Panic (Arn a)) as Ha.
    pose proof (arnRegion_no_error (Arn a)) as Ha'.
    pose proof (arnRegion_Panic (Arn b)) as Hb.
    pose proof (arnRegion_no_error (Arn b)) as Hb'.
    destruct (arnRegion (Arn a)) as [aRegion|e| ]; simpl.
    + destruct (arnRegion (Arn b)) as [bRegion|e| ]; simpl.
      * split; [|by destruct (String.eqb aRegion bRegion)].
        split; [by destruct (String.eqb aRegion bRegion)|].
        intros [_ [H|H]]; [by apply Ha in H|by apply Hb in H].
      * by destruct (Hb' e).
      * split; [|done]. split; [|done]. intros _. split; [done|].
        right. by apply Hb.
    + by destruct (Ha' e).
    + split; [|done]. split; [|done]. intros _. split; [done|].
      left. by apply Ha.
  - split; [|done]. split; [done|]. by intros [Heq _].
Qed.

(** X10. Comparing two rows of different status never reads their ARNs:
    [sortRowsLess] panics exactly when the rows have the same status and
    one of the two ARNs has fewer than three colons, and it never returns
    an error. *)
Theorem sortRowsLess_panics a b :
  (sortRowsLess a b = Panic ↔
   Status a = Status b
   ∧ ((countByte ":" (Arn a) < 3)%nat ∨ (countByte ":" (Arn b) < 3)%nat))
  ∧ ∀ err, sortRowsLess a b ≠ Err err.
Proof. apply sortRowsLess_outcomes. Qed.

Lemma comparable_wellformed r :
  Status r ∈ ["red"; "yellow"; "green"] → (3 ≤ countByte ":" (Arn r))%nat →
  comparable r.
Proof.
  intros Hstatus Hcolons. unfold comparable, sortKey.
  destruct (lookup_lt_is_Some_2 (Split (Arn r) ":") 3%nat) as [region ->].
  { rewrite Split_length. lia. }
  rewrite !elem_of_cons in Hstatus.
  destruct Hstatus as [-> | [-> | [-> | Hnil]]]; try by eexists.
  by apply elem_of_nil in Hnil.
Qed.

(** X11. On rows whose status is one of the three colours and whose ARN
    has at least three colons, [sortRowsLess] is a strict weak order, as
    [sort.SliceStable] asks of its comparison: it is irreflexive,
    asymmetric and transitive, and so is being unordered by it. *)
Theorem sortRowsLess_strict_weak_order a b c :
  Forall (λ r, Status r ∈ ["red"; "yellow"; "green"]
               ∧ (3 ≤ countByte ":" (Arn r))%nat) [a; b; c] →
  sortRowsLess a a = Ok false
  ∧ (sortRowsLess a b = Ok true → sortRowsLess b a = Ok false)
  ∧ (sortRowsLess a b = Ok true → sortRowsLess b c = Ok true →
     sortRowsLess a c = Ok true)
  ∧ (sortRowsLess a b = Ok false → sortRowsLess b c = Ok false →
     sortRowsLess a c = Ok false).
Proof.
  intros Hwf. rewrite !Forall_cons in Hwf.
  destruct Hwf as ([Ha1 Ha2] & [Hb1 Hb2] & [Hc1 Hc2] & _).
  pose proof (comparable_wellformed a Ha1 Ha2) as Ha.
  pose proof (comparable_wellformed b Hb1 Hb2) as Hb.
  pose proof (comparable_wellformed c Hc1 Hc2) as Hc.
  rewrite !sortRowsLess_key by done. split_and!.
  - by rewrite optionKeyLtb_irrefl.
  - intros [= Hab]. f_equal.
    destruct (optionKeyLtb (sortKey b) (sortKey a)) eqn:Hba; [|done].
    by rewrite <- (optionKeyLtb_irrefl (sortKey a)),
      (optionKeyLtb_trans _ _ _ Hab Hba).
  - intros [= Hab] [= Hbc]. f_equal. by eapply optionKeyLtb_trans.
  - intros [= Hab] [= Hbc]. f_equal.
    destruct (optionKeyLtb (sortKey a) (sortKey c)) eqn:Hac; [|done].
    destruct (optionKeyLtb (sortKey b) (sortKey a)) eqn:Hba.
    + by rewrite <- Hbc, (optionKeyLtb_trans _ _ _ Hba Hac).
    + rewrite (optionKeyLtb_total _ _ Hab Hba) in Hac. congruence.
Qed.

(** X12. Sorting is idempotent: sorting the sorted rows again gives the
    same rows in the same order. *)
Theorem SliceStable_idempotent rows sorted :
  Forall (λ r, Status r ∈ ["red"; "yellow"; "green"]
               ∧ (3 ≤ countByte ":" (Arn r))%nat) rows →
  SliceStable sortRowsLess rows = Ok sorted →
  SliceStable sortRowsLess sorted = Ok sorted.
Proof.
  intros Hwf Hsort.
  assert (Forall comparable rows) as Hrows.
  { eapply Forall_impl; [exact Hwf|]. simpl. intros r [H1 H2].
    by apply comparable_wellformed. }
  destruct (SliceStable_sortRowsLess rows Hrows) as (sorted' & Hsort' & Hsorted).
  rewrite Hsort in Hsort'. injection Hsort' as <-.
  assert (Forall comparable sorted) as Hcomparable.
  { destruct Hsorted as [Hperm _]. by rewrite Hperm. }
  destruct (SliceStable_sortRowsLess sorted Hcomparable)
    as (again & -> & Hagain).
  f_equal. apply (stableSortedByKey_unique sorted); [done|done|].
  destruct Hsorted as (Hperm & Hordered & _). by split_and!.
Qed.

Lemma insertLast_no_error {A} (less : A → A → result bool) x sorted err :
  (∀ a b e, less a b ≠ Err e) → insertLast less x sorted ≠ Err err.
Proof.
  intros Hless. revert err. induction sorted as [|y below IH]; intros err; simpl;
    [done|].
  pose proof (Hless x y) as Hxy.
  destruct (less x y) as [[]|e| ]; simpl; [|done|by destruct (Hxy e)|done].
  pose proof IH as IH'.
  destruct (insertLast less x below) as [placed|e| ]; simpl;
    [done|by destruct (IH' e)|done].
Qed.

Lemma SliceStable_no_error {A} (less : A → A → result bool) data err :
  (∀ a b e, less a b ≠ Err e) → SliceStable less data ≠ Err err.
Proof.
  intros Hless. unfold SliceStable.
  assert (∀ sorted e, insertionSort less data sorted ≠ Err e) as Hsort.
  { induction data as [|x rest IH]; intros sorted e; simpl; [done|].
    pose proof (insertLast_no_error less x sorted) as Hins.
    destruct (insertLast less x sorted) as [sorted'|e'| ]; simpl;
      [apply IH|by destruct (Hins e' Hless)|done]. }
  pose proof (Hsort []) as Hnil.
  destruct (insertionSort less data []) as [sorted|e| ]; simpl;
    [done|by destruct (Hnil e)|done].
Qed.

Lemma scanSecurityGroups_Ok rows results facts :
  scanSecurityGroups rows results = Ok facts ↔
  ∃ new, rows = inr <$> new ∧ facts = results ++ new.
Proof.
  revert results. induction rows as [|[err|row] rows IH]; intros results; simpl.
  - split.
    + intros [= <-]. exists []. by rewrite app_nil_r.
    + intros ([|row new] & Hrows & ->); [by rewrite app_nil_r|done].
  - split; [done|]. by intros ([|row new] & Hrows & _).
  - rewrite IH. split.
    + intros (new & -> & ->). exists (row :: new). by rewrite <- app_assoc.
    + intros ([|row' new] & Hrows & ->); [done|].
      injection Hrows as <- ->. exists new. by rewrite <- app_assoc.
Qed.

Lemma scanSecurityGroups_Err good err rest results :
  scanSecurityGroups ((inr <$> good) ++ inl err :: rest) results
  = Err (errWrap err "Failed to unmarshal a row").
Proof.
  revert results. induction good as [|row good IH]; intros results; simpl;
    [done|apply IH].
Qed.

(** ** Further properties of the report generation *)

(** X18. The facts of a run are the rows of the analysis query in their
    order, all of them read; one row that does not read fails the whole
    query with the error of that row, and no fact is returned. *)
Theorem runSecurityGroupQuery_all_or_nothing w :
  (∀ facts,
     runSecurityGroupQuery w = Ok facts ↔
     ∃ query, loadQuery w "security_groups" = Ok query
       ∧ querySecurityGroups w query = inr (inr <$> facts))
  ∧ (∀ query good err rest,
       loadQuery w "security_groups" = Ok query →
       querySecurityGroups w query = inr ((inr <$> good) ++ inl err :: rest) →
       runSecurityGroupQuery w = Err (errWrap err "Failed to unmarshal a row")).
Proof.
  unfold runSecurityGroupQuery. split.
  - intros facts.
    destruct (loadQuery w "security_groups") as [query|e| ]; simpl.
    + destruct (querySecurityGroups w query) as [e|rows] eqn:Hrows; simpl.
      * split; [done|]. intros (query' & [= <-] & Hq). congruence.
      * rewrite scanSecurityGroups_Ok. split.
        -- intros (new & -> & ->). by exists query.
        -- intros (query' & [= <-] & Hq). exists facts.
           split; [congruence|done].
    + split; [done|]. by intros (query' & Hq & _).
    + split; [done|]. by intros (query' & Hq & _).
  - intros query good err rest Hquery Hrows. rewrite Hquery. simpl.
    rewrite Hrows. simpl. apply scanSecurityGroups_Err.
Qed.

Section GenerateExtras.
Context `{MR : MultiRangePkg}.

(** X13. Whatever the ARNs are, the rows of a report are in ascending
    order of severity rank: no row comes before a row of lower rank, and
    the first row, from which the account is read, has the lowest rank of
    the report. *)
Theorem report_rows_by_severity w connectionString safePorts report :
  Generate w connectionString safePorts = Ok report →
  ∀ (i j : nat) (a b : Row), (i < j)%nat →
    Rows report !! i = Some a → Rows report !! j = Some b →
    statusIndexAt (Status a) ≤ statusIndexAt (Status b).
Proof.
  intros (facts & rows & _ & _ & Hsort & _)%Generate_Ok i j a b Hij Hi Hj.
  apply (SliceStable_rank (λ r, statusIndexAt (Status r)) sortRowsLess
           sortRowsLess_rank) in Hsort.
  exact (StronglySorted_lookup _ _ _ _ _ _ Hsort Hij Hi Hj).
Qed.

(** X14. A report is never empty: when [Generate] returns a report, it has
    at least one row, and at least one fact was fetched. *)
Theorem report_never_empty w connectionString safePorts report :
  Generate w connectionString safePorts = Ok report →
  Rows report ≠ []
  ∧ ∀ facts, runSecurityGroupQuery w = Ok facts → facts ≠ [].
Proof.
  intros (facts & rows & Hfacts & Hrows & Hsort & Hmetadata)%Generate_Ok.
  apply loadMetadata_Ok in Hmetadata as (first & Hfirst & _).
  split; [by destruct (Rows report)|].
  intros facts' Hfacts'. rewrite Hfacts in Hfacts'. injection Hfacts' as <-.
  apply SliceStable_Permutation in Hsort.
  apply analyzeSecurityGroupResults_length in Hrows.
  apply Permutation_length in Hsort.
  intros ->. simpl in Hrows. destruct (Rows report); simpl in *; [done|lia].
Qed.

(** X15. Every error of [Generate] is the error of one stage wrapped with
    the message of that stage; the sort adds no error of its own. *)
Theorem Generate_error_names_stage w connectionString safePorts err :
  Generate w connectionString safePorts = Err err →
  ∃ cause message,
    err = errWrap cause message
    ∧ message ∈ stageMessages
    ∧ ((message = "Failed to connect to db"
        ∧ sqlOpen w connectionString = Some cause)
       ∨ (message = "Failed to ping db" ∧ dbPing w = Some cause)
       ∨ (message = "Failed to install fixture functions"
          ∧ installDbFunctions w = Err cause)
       ∨ (message = "Failed to run analysis query"
          ∧ runSecurityGroupQuery w = Err cause)
       ∨ (message = "Failed to generate report from query results"
          ∧ ∃ facts, runSecurityGroupQuery w = Ok facts
              ∧ analyzeSecurityGroupResults facts
                  (default defaultSafePorts safePorts) = Err cause)
       ∨ (message = "Failed to load metadata"
          ∧ ∃ rows, loadMetadata w rows = Err cause)).
Proof.
  unfold Generate, stageMessages.
  destruct (sqlOpen w connectionString) as [e|].
  { intros [= <-]. eexists _, _. split; [done|]. split; [|by left].
    rewrite !elem_of_cons. tauto. }
  destruct (dbPing w) as [e|].
  { intros [= <-]. eexists _, _. split; [done|]. split; [|by right; left].
    rewrite !elem_of_cons. tauto. }
  destruct (installDbFunctions w) as [u|e| ]; simpl; [| |done].
  2:{ intros [= <-]. eexists _, _. split; [done|].
      split; [|by right; right; left]. rewrite !elem_of_cons. tauto. }
  destruct (runSecurityGroupQuery w) as [facts|e| ]; simpl; [| |done].
  2:{ intros [= <-]. eexists _, _. split; [done|].
      split; [|by right; right; right; left]. rewrite !elem_of_cons. tauto. }
  replace (match safePorts with Some ports => ports | None => defaultSafePorts end)
    with (default defaultSafePorts safePorts) by by destruct safePorts.
  destruct (analyzeSecurityGroupResults facts _) as [rows|e| ] eqn:Hrows;
    simpl; [| |done].
  2:{ intros [= <-]. eexists _, _. split; [done|].
      split; [rewrite !elem_of_cons; tauto|].
      right; right; right; right; left. split; [done|]. by exists facts. }
  pose proof (SliceStable_no_error sortRowsLess rows) as Hsort.
  destruct (SliceStable sortRowsLess rows) as [sorted|e| ]; simpl; [| |done].
  2:{ exfalso. apply (Hsort e); [|done]. intros a b.
      apply sortRowsLess_outcomes. }
  destruct (loadMetadata w sorted) as [metadata|e| ] eqn:Hmetadata; simpl;
    [done| |done].
  intros [= <-]. eexists _, _. split; [done|].
  split; [rewrite !elem_of_cons; tauto|].
  right; right; right; right; right. split; [done|]. by exists sorted.
Qed.

(** X16. The metadata of a report come from the first row of the import
    query and from the clock: the import date is the date of that row, the
    generation date is the current time, and the organization is that of
    the row unless it starts with "OrgDummy", in which case it is
    "<NONE>"; so the organization of a report never starts with
    "OrgDummy". *)
Theorem report_metadata w connectionString safePorts report :
  Generate w connectionString safePorts = Ok report →
  ∃ query endDate organization rest,
    loadQuery w "most_recent_import" = Ok query
    ∧ queryImports w query = inr (inr (endDate, organization) :: rest)
    ∧ Imported (ReportMetadata report) = endDate
    ∧ Generated (ReportMetadata report) = timeNow w
    ∧ Organization (ReportMetadata report)
      = (if HasPrefix organization "OrgDummy" then "<NONE>" else organization)
    ∧ HasPrefix (Organization (ReportMetadata report)) "OrgDummy" = false.
Proof.
  intros (facts & rows & _ & _ & _ & Hmetadata)%Generate_Ok.
  revert Hmetadata. generalize (ReportMetadata report). intros metadata.
  unfold loadMetadata.
  destruct (loadQuery w "most_recent_import") as [query|e| ] eqn:Hquery;
    simpl; try done.
  destruct (queryImports w query) as [e|[|scanned queryRows]] eqn:Himports;
    simpl; try done.
  destruct scanned as [e|[endDate organization]]; simpl; try done.
  destruct (index (Rows report) 0) as [first|e| ]; simpl; try done.
  destruct (index (Split (Arn first) ":") 4) as [accountID|e| ]; simpl;
    try done.
  intros [= <-]. exists query, endDate, organization, queryRows. simpl.
  split_and!; try done.
  destruct (HasPrefix organization "OrgDummy") eqn:Hprefix; [done|].
  exact Hprefix.
Qed.

(** X17. The account of a report is the text between the fourth and the
    fifth colon (or the end) of the ARN of its first row: that ARN is four
    colon-free fields, then the account, which is colon-free, then any
    further fields, joined by colons. *)
Theorem account_between_colons w connectionString safePorts report :
  Generate w connectionString safePorts = Ok report →
  ∃ first p0 p1 p2 region rest,
    Rows report !! 0%nat = Some first
    ∧ Forall (λ field, countByte ":" field = 0%nat)
        (p0 :: p1 :: p2 :: region
           :: Account (ReportMetadata report) :: rest)
    ∧ Arn first
      = Join (p0 :: p1 :: p2 :: region
                :: Account (ReportMetadata report) :: rest) ":".
Proof.
  intros (facts & rows & _ & _ & _ & Hmetadata)%Generate_Ok.
  apply loadMetadata_Ok in Hmetadata as (first & Hfirst & Haccount).
  pose proof (Split_fields (Arn first) ":") as Hfields.
  pose proof (Join_Split (Arn first) ":") as Hjoin.
  destruct (Split (Arn first) ":") as [|p0 [|p1 [|p2 [|region [|account rest]]]]];
    try done.
  injection Haccount as <-. by exists first, p0, p1, p2, region, rest.
Qed.

Lemma loadQuery_agree w w' name :
  "/queries/" +:+ name +:+ ".sql" ∈ queryFiles →
  (∀ filename, filename ∈ queryFiles → pkgerOpen w filename = pkgerOpen w' filename) →
  loadQuery w name = loadQuery w' name.
Proof. intros Hin Hfiles. unfold loadQuery. by rewrite (Hfiles _ Hin). Qed.

(** X19. [Generate] reads no other embedded file than the three query
    files: two worlds that differ only in what opening other files gives
    have the same outcome. *)
Theorem Generate_reads_three_files w w' connectionString safePorts :
  sqlOpen w = sqlOpen w' → dbPing w = dbPing w' → dbExec w = dbExec w' →
  querySecurityGroups w = querySecurityGroups w' →
  queryImports w = queryImports w' → timeNow w = timeNow w' →
  (∀ filename, filename ∈ queryFiles →
     pkgerOpen w filename = pkgerOpen w' filename) →
  Generate w connectionString safePorts
  = Generate w' connectionString safePorts.
Proof.
  intros Hopen Hping Hexec Hgroups Himports Hnow Hfiles.
  assert (installDbFunctions w = installDbFunctions w') as Hinstall.
  { unfold installDbFunctions.
    rewrite (loadQuery_agree w w' "rfc1918"), Hexec; [done| |done].
    unfold queryFiles. simpl. rewrite !elem_of_cons. tauto. }
  assert (runSecurityGroupQuery w = runSecurityGroupQuery w') as Hquery.
  { unfold runSecurityGroupQuery.
    rewrite (loadQuery_agree w w' "security_groups"), Hgroups; [done| |done].
    unfold queryFiles. simpl. rewrite !elem_of_cons. tauto. }
  assert (∀ rows, loadMetadata w rows = loadMetadata w' rows) as Hmetadata.
  { intros rows. unfold loadMetadata.
    rewrite (loadQuery_agree w w' "most_recent_import"), Himports, Hnow;
      [done| |done].
    unfold queryFiles. simpl. rewrite !elem_of_cons. tauto. }
  unfold Generate. rewrite Hopen, Hping, Hinstall, Hquery.
  destruct (sqlOpen w' connectionString); [done|].
  destruct (dbPing w'); [done|].
  destruct (installDbFunctions w') as [u|e| ]; simpl; [|done|done].
  destruct (runSecurityGroupQuery w') as [facts|e| ]; simpl; [|done|done].
  destruct (analyzeSecurityGroupResults facts _) as [rows|e| ]; simpl;
    [|done|done].
  destruct (SliceStable sortRowsLess rows) as [sorted|e| ]; simpl;
    [|done|done].
  by rewrite Hmetadata.
Qed.

End GenerateExtras.

Lemma Permutation_short {A} (l1 l2 : list A) :
  l1 ≡ₚ l2 → (length l1 ≤ 1)%nat → l1 = l2.
Proof.
  intros Hperm Hlen. destruct l1 as [|x [|y l1]]; simpl in Hlen; [| |lia].
  - by apply Permutation_nil_l in Hperm.
  - by apply Permutation_singleton_l in Hperm.
Qed.

Lemma filter_key_short {A K} `{!EqDecision K} (key : A → K) (l : list A) k :
  NoDup (key <$> l) → (length (filter (λ r, key r = k) l) ≤ 1)%nat.
Proof.
  induction l as [|x l IH]; simpl; [lia|].
  intros [Hx Hl]%NoDup_cons. rewrite filter_cons.
  case_decide as Hk; [|by apply IH].
  rewrite filter_none; [simpl; lia|].
  apply Forall_forall. intros y Hy Hyk. apply Hx.
  apply list_elem_of_fmap. exists y. split; [congruence|done].
Qed.

(** X23. When no two rows have the same status, region and name, the order
    of the sorted rows does not depend on the order in which the rows
    were given: two permutations of the same rows sort to the same list. *)
Theorem sorted_order_canonical rows rows' sorted sorted' :
  Forall (λ r, Status r ∈ ["red"; "yellow"; "green"]
               ∧ (3 ≤ countByte ":" (Arn r))%nat) rows →
  NoDup (sortKey <$> rows) →
  rows' ≡ₚ rows →
  SliceStable sortRowsLess rows = Ok sorted →
  SliceStable sortRowsLess rows' = Ok sorted' →
  sorted = sorted'.
Proof.
  intros Hwf Hkeys Hperm Hsort Hsort'.
  assert (Forall comparable rows) as Hrows.
  { eapply Forall_impl; [exact Hwf|]. simpl. intros r [H1 H2].
    by apply comparable_wellformed. }
  assert (Forall comparable rows') as Hrows' by by rewrite Hperm.
  destruct (SliceStable_sortRowsLess rows Hrows) as (s1 & Hs1 & Hsorted).
  destruct (SliceStable_sortRowsLess rows' Hrows') as (s2 & Hs2 & Hsorted').
  rewrite Hsort in Hs1. injection Hs1 as <-.
  rewrite Hsort' in Hs2. injection Hs2 as <-.
  apply (stableSortedByKey_unique rows); [done|done|].
  destruct Hsorted' as (Hperm' & Hordered' & Hstable').
  split_and!; [by rewrite Hperm'|done|].
  intros k. rewrite Hstable'. apply Permutation_short.
  - by rewrite Hperm.
  - rewrite Hperm. by apply (filter_key_short sortKey rows (Some k)).
Qed.

Section StageExtras.
Context `{MR : MultiRangePkg}.

(** X20. When the query file of the database functions cannot be loaded,
    [Generate] reports a fixed error, in which the cause of the failure
    does not appear. *)
Theorem Generate_hides_load_failure w connectionString safePorts :
  sqlOpen w connectionString = None → dbPing w = None →
  (∀ text, loadQuery w "rfc1918" ≠ Ok text) →
  Generate w connectionString safePorts
  = Err (errWrap (errNew "Failed to load sql for is_rfc1918block")
           "Failed to install fixture functions").
Proof.
  intros Hopen Hping Hload. unfold Generate, installDbFunctions.
  rewrite Hopen, Hping.
  pose proof (loadQuery_no_panic w "rfc1918") as Hpanic.
  destruct (loadQuery w "rfc1918") as [text|e| ]; [|done|done].
  by destruct (Hload text).
Qed.

(** X21. On an empty set of facts [Generate] never returns a report: once
    the facts are fetched and found empty, it panics exactly when the
    import query gives a first row that reads, and returns the error of
    the metadata stage otherwise. *)
Theorem Generate_without_facts w connectionString safePorts :
  sqlOpen w connectionString = None → dbPing w = None →
  installDbFunctions w = Ok () → runSecurityGroupQuery w = Ok [] →
  (∀ report, Generate w connectionString safePorts ≠ Ok report)
  ∧ (Generate w connectionString safePorts = Panic ↔
     ∃ query endDate organization rest,
       loadQuery w "most_recent_import" = Ok query
       ∧ queryImports w query = inr (inr (endDate, organization) :: rest))
  ∧ (∀ err, Generate w connectionString safePorts = Err err →
       ∃ cause, err = errWrap cause "Failed to load metadata"
         ∧ loadMetadata w [] = Err cause).
Proof.
  intros Hopen Hping Hinstall Hfacts. unfold Generate.
  rewrite Hopen, Hping, Hinstall, Hfacts. simpl.
  change (analyzeSecurityGroupResults [] _) with (Ok (@nil Row)). simpl.
  change (SliceStable sortRowsLess []) with (Ok (@nil Row)). simpl.
  unfold loadMetadata.
  pose proof (loadQuery_no_panic w "most_recent_import") as Hpanic.
  destruct (loadQuery w "most_recent_import") as [query|e| ]; simpl;
    [| |done].
  - destruct (queryImports w query) as [e|[|[e|[endDate organization]] rest]]
      eqn:Himports; simpl.
    + split_and!; [done| |intros err [= <-]; by eexists].
      split; [done|]. intros (q & d & o & r & [= <-] & Hq). congruence.
    + split_and!; [done| |intros err [= <-]; by eexists].
      split; [done|]. intros (q & d & o & r & [= <-] & Hq). congruence.
    + split_and!; [done| |intros err [= <-]; by eexists].
      split; [done|]. intros (q & d & o & r & [= <-] & Hq). congruence.
    + split_and!; [done| |done].
      split; [|done]. intros _. by exists query, endDate, organization, rest.
  - split_and!; [done| |intros err [= <-]; by eexists].
    split; [done|]. by intros (q & d & o & r & Hq & _).
Qed.

(** X22. Port data cannot change the status of a default group, of a
    group that is not in use or of a restricted group: whatever the safe
    ports, such a fact gets the same status. *)
Theorem status_ignores_ports fact safePorts1 safePorts2 row1 row2 :
  isDefault fact = true ∨ inUse fact = false ∨ isRestricted fact = true →
  analyzeRow fact safePorts1 = Ok row1 →
  analyzeRow fact safePorts2 = Ok row2 →
  Status row1 = Status row2.
Proof.
  intros Hcase (unsafe1 & _ & ->)%analyzeRow_Ok (unsafe2 & _ & ->)%analyzeRow_Ok.
  simpl. unfold rowStatus.
  destruct Hcase as [-> | [-> | ->]]; [done| |].
  - by destruct (isDefault fact).
  - by destruct (isDefault fact), (inUse fact).
Qed.

End StageExtras.

(** ** The further properties on concrete reports *)

Section ExtraExamples.
#[local] Existing Instance specMultiRange.

Lemma classified_status_ranked_witness :
  analyzeSecurityGroupResults exampleFacts [22] = Ok exampleRows
  ∧ Forall (λ row,
      (Status row = "red" ∧ statusIndex !! Status row = Some 0)
      ∨ (Status row = "yellow" ∧ statusIndex !! Status row = Some 1)
      ∨ (Status row = "green" ∧ statusIndex !! Status row = Some 2))
      exampleRows.
Proof.
  split; [reflexivity|].
  apply (classified_status_ranked exampleFacts [22] exampleRows). reflexivity.
Defined.

Lemma red_rows_witness :
  analyzeSecurityGroupResults exampleFacts [22] = Ok exampleRows
  ∧ Forall2 (λ fact row,
      Status row = "red" →
      InUse row = true ∧ PublicIps row ≠ [] ∧ isRestricted fact = false
      ∧ (IsDefault row = true → internalOnly fact = false))
      exampleFacts exampleRows.
Proof.
  split; [reflexivity|].
  apply (red_rows exampleFacts [22] exampleRows). reflexivity.
Defined.

Lemma green_rows_witness :
  analyzeSecurityGroupResults [factG; factZ] [22] = Ok [rowG; rowZ]
  ∧ Forall2 (λ fact row,
      Status row = "green" →
      (IsDefault row = true → InUse row = false ∧ isRestricted fact = true)
      ∧ (IsDefault row = false →
         InUse row = true
         ∧ (isRestricted fact = true
            ∨ (isProblematic fact = false
               ∧ ∃ unsafe, unsafePorts fact [22] = Ok unsafe
                   ∧ Size unsafe = 0)))) [factG; factZ] [rowG; rowZ].
Proof.
  split; [reflexivity|].
  apply (green_rows [factG; factZ] [22] [rowG; rowZ]). reflexivity.
Defined.

Lemma status_ignores_internalOnly_witness :
  (isDefault factZ = false ∧ analyzeRow factZ [22] = Ok rowZ)
  ∧ ∃ row', analyzeRow (withInternalOnly true factZ) [22] = Ok row'
      ∧ Status row' = Status rowZ
      ∧ ∀ note, note ∈ Notes row' → note ∈ Notes rowZ ∨
          ∃ unsafe, unsafePorts factZ [22] = Ok unsafe
            ∧ note = portNote (Humanize unsafe).
Proof.
  split; [split; reflexivity|].
  apply (status_ignores_internalOnly factZ true [22] rowZ); reflexivity.
Defined.

Lemma notes_agree_with_row_witness :
  analyzeSecurityGroupResults exampleFacts [22] = Ok exampleRows
  ∧ Forall (λ row,
      ("Not in use" ∈ Notes row ↔ InUse row = false)
      ∧ ("No public IP addresses found" ∈ Notes row ↔ PublicIps row = [])
      ∧ (1 ≤ length (Notes row) ≤ 5)%nat) exampleRows.
Proof.
  split; [reflexivity|].
  apply (notes_agree_with_row exampleFacts [22] exampleRows). reflexivity.
Defined.

Lemma example_rows_wellformed :
  Forall (λ r, Status r ∈ ["red"; "yellow"; "green"]
               ∧ (3 ≤ countByte ":" (Arn r))%nat) [rowB; rowA; rowZ].
Proof.
  repeat (apply Forall_cons; split;
          [split; [rewrite !elem_of_cons; simpl; tauto|vm_compute; lia]|]).
  constructor.
Defined.

Lemma sortRowsLess_strict_weak_order_witness :
  Forall (λ r, Status r ∈ ["red"; "yellow"; "green"]
               ∧ (3 ≤ countByte ":" (Arn r))%nat) [rowB; rowA; rowZ]
  ∧ sortRowsLess rowB rowB = Ok false
  ∧ (sortRowsLess rowB rowA = Ok true → sortRowsLess rowA rowB = Ok false)
  ∧ (sortRowsLess rowB rowA = Ok true → sortRowsLess rowA rowZ = Ok true →
     sortRowsLess rowB rowZ = Ok true)
  ∧ (sortRowsLess rowB rowA = Ok false → sortRowsLess rowA rowZ = Ok false →
     sortRowsLess rowB rowZ = Ok false).
Proof.
  split; [exact example_rows_wellformed|].
  apply (sortRowsLess_strict_weak_order rowB rowA rowZ).
  exact example_rows_wellformed.
Defined.

Lemma SliceStable_idempotent_witness :
  (Forall (λ r, Status r ∈ ["red"; "yellow"; "green"]
                ∧ (3 ≤ countByte ":" (Arn r))%nat) [rowB; rowA; rowZ]
   ∧ SliceStable sortRowsLess [rowB; rowA; rowZ] = Ok [rowZ; rowA; rowB])
  ∧ SliceStable sortRowsLess [rowZ; rowA; rowB] = Ok [rowZ; rowA; rowB].
Proof.
  split; [split; [exact example_rows_wellformed|reflexivity]|].
  apply (SliceStable_idempotent [rowB; rowA; rowZ] [rowZ; rowA; rowB]);
    [exact example_rows_wellformed|reflexivity].
Defined.

Lemma sorted_order_canonical_witness :
  (Forall (λ r, Status r ∈ ["red"; "yellow"; "green"]
                ∧ (3 ≤ countByte ":" (Arn r))%nat) [rowB; rowA; rowZ]
   ∧ NoDup (sortKey <$> [rowB; rowA; rowZ])
   ∧ [rowA; rowB; rowZ] ≡ₚ [rowB; rowA; rowZ]
   ∧ SliceStable sortRowsLess [rowB; rowA; rowZ] = Ok [rowZ; rowA; rowB]
   ∧ SliceStable sortRowsLess [rowA; rowB; rowZ] = Ok [rowZ; rowA; rowB])
  ∧ [rowZ; rowA; rowB] = [rowZ; rowA; rowB].
Proof.
  assert (NoDup (sortKey <$> [rowB; rowA; rowZ])) as Hkeys.
  { apply (bool_decide_unpack _). vm_compute. exact I. }
  split.
  - split_and!; [exact example_rows_wellformed|exact Hkeys
                |apply Permutation_swap|reflexivity|reflexivity].
  - apply (sorted_order_canonical [rowB; rowA; rowZ] [rowA; rowB; rowZ]);
      [exact example_rows_wellformed|exact Hkeys|apply Permutation_swap
      |reflexivity|reflexivity].
Defined.

Lemma report_rows_by_severity_witness :
  Generate (exampleWorld [factShort; factA]) "postgres://db" (Some [22])
  = Ok {| ReportMetadata :=
            {| Imported := 1600000000; Generated := 1700000000;
               Account := "222222222222"; Organization := "<NONE>" |};
          Rows := [ rowA;
                    {| Arn := "sg-0s"; Name := "s"; Status := "yellow";
                       PublicIps := []; InUse := false; IsDefault := false;
                       Notes := ["Not in use";
                                 "No public IP addresses found"] |} ] |}
  ∧ ∀ (i j : nat) (a b : Row), (i < j)%nat →
      [ rowA;
        {| Arn := "sg-0s"; Name := "s"; Status := "yellow";
           PublicIps := []; InUse := false; IsDefault := false;
           Notes := ["Not in use"; "No public IP addresses found"] |} ]
        !! i = Some a →
      [ rowA;
        {| Arn := "sg-0s"; Name := "s"; Status := "yellow";
           PublicIps := []; InUse := false; IsDefault := false;
           Notes := ["Not in use"; "No public IP addresses found"] |} ]
        !! j = Some b →
      statusIndexAt (Status a) ≤ statusIndexAt (Status b).
Proof.
  split; [reflexivity|].
  apply (report_rows_by_severity (exampleWorld [factShort; factA])
           "postgres://db" (Some [22])
           {| ReportMetadata :=
                {| Imported := 1600000000; Generated := 1700000000;
                   Account := "222222222222"; Organization := "<NONE>" |};
              Rows := [ rowA;
                        {| Arn := "sg-0s"; Name := "s"; Status := "yellow";
                           PublicIps := []; InUse := false;
                           IsDefault := false;
                           Notes := ["Not in use";
                                     "No public IP addresses found"] |} ] |}).
  reflexivity.
Defined.

Lemma report_never_empty_witness :
  Generate (exampleWorld exampleFacts) "postgres://db" (Some [22])
  = Ok exampleReport
  ∧ Rows exampleReport ≠ []
  ∧ ∀ facts, runSecurityGroupQuery (exampleWorld exampleFacts) = Ok facts →
      facts ≠ [].
Proof.
  split; [reflexivity|].
  apply (report_never_empty (exampleWorld exampleFacts) "postgres://db"
           (Some [22]) exampleReport).
  reflexivity.
Defined.

Lemma Generate_error_names_stage_witness :
  Generate (exampleWorld [factB; factBad; factZ]) "postgres://db" None
  = Err (errWrap
           (errWrap
              (errWrap (multirange.parseError "5-2")
                 "Failed to parse port range [5-2]")
              "Failed to calculate unsafe ports")
           "Failed to generate report from query results")
  ∧ ∃ cause message,
      errWrap
        (errWrap
           (errWrap (multirange.parseError "5-2")
              "Failed to parse port range [5-2]")
           "Failed to calculate unsafe ports")
        "Failed to generate report from query results"
      = errWrap cause message
      ∧ message ∈ stageMessages
      ∧ ((message = "Failed to connect to db"
          ∧ sqlOpen (exampleWorld [factB; factBad; factZ]) "postgres://db"
            = Some cause)
         ∨ (message = "Failed to ping db"
            ∧ dbPing (exampleWorld [factB; factBad; factZ]) = Some cause)
         ∨ (message = "Failed to install fixture functions"
            ∧ installDbFunctions (exampleWorld [factB; factBad; factZ])
              = Err cause)
         ∨ (message = "Failed to run analysis query"
            ∧ runSecurityGroupQuery (exampleWorld [factB; factBad; factZ])
              = Err cause)
         ∨ (message = "Failed to generate report from query results"
            ∧ ∃ facts,
                runSecurityGroupQuery (exampleWorld [factB; factBad; factZ])
                = Ok facts
                ∧ analyzeSecurityGroupResults facts
                    (default defaultSafePorts None) = Err cause)
         ∨ (message = "Failed to load metadata"
            ∧ ∃ rows,
                loadMetadata (exampleWorld [factB; factBad; factZ]) rows
                = Err cause)).
Proof.
  split; [reflexivity|].
  apply (Generate_error_names_stage (exampleWorld [factB; factBad; factZ])
           "postgres://db" None).
  reflexivity.
Defined.

Lemma report_metadata_witness :
  Generate (exampleWorld exampleFacts) "postgres://db" (Some [22])
  = Ok exampleReport
  ∧ ∃ query endDate organization rest,
      loadQuery (exampleWorld exampleFacts) "most_recent_import" = Ok query
      ∧ queryImports (exampleWorld exampleFacts) query
        = inr (inr (endDate, organization) :: rest)
      ∧ Imported (ReportMetadata exampleReport) = endDate
      ∧ Generated (ReportMetadata exampleReport)
        = timeNow (exampleWorld exampleFacts)
      ∧ Organization (ReportMetadata exampleReport)
        = (if HasPrefix organization "OrgDummy" then "<NONE>"
           else organization)
      ∧ HasPrefix (Organization (ReportMetadata exampleReport)) "OrgDummy"
        = false.
Proof.
  split; [reflexivity|].
  apply (report_metadata (exampleWorld exampleFacts) "postgres://db"
           (Some [22]) exampleReport).
  reflexivity.
Defined.

Lemma account_between_colons_witness :
  Generate (exampleWorld exampleFacts) "postgres://db" (Some [22])
  = Ok exampleReport
  ∧ ∃ first p0 p1 p2 region rest,
      Rows exampleReport !! 0%nat = Some first
      ∧ Forall (λ field, countByte ":" field = 0%nat)
          (p0 :: p1 :: p2 :: region
             :: Account (ReportMetadata exampleReport) :: rest)
      ∧ Arn first
        = Join (p0 :: p1 :: p2 :: region
                  :: Account (ReportMetadata exampleReport) :: rest) ":".
Proof.
  split; [reflexivity|].
  apply (account_between_colons (exampleWorld exampleFacts) "postgres://db"
           (Some [22]) exampleReport).
  reflexivity.
Defined.

Lemma runSecurityGroupQuery_all_or_nothing_witness :
  (runSecurityGroupQuery (exampleWorld exampleFacts) = Ok exampleFacts ↔
   ∃ query,
     loadQuery (exampleWorld exampleFacts) "security_groups" = Ok query
     ∧ querySecurityGroups (exampleWorld exampleFacts) query
       = inr (inr <$> exampleFacts))
  ∧ runSecurityGroupQuery (exampleWorld exampleFacts) = Ok exampleFacts.
Proof.
  split; [|reflexivity].
  apply (proj1 (runSecurityGroupQuery_all_or_nothing
                  (exampleWorld exampleFacts)) exampleFacts).
Defined.

Lemma Generate_reads_three_files_witness :
  (∀ filename, filename ∈ queryFiles →
     pkgerOpen (exampleWorld exampleFacts) filename
     = pkgerOpen (queriesOnlyWorld exampleFacts) filename)
  ∧ pkgerOpen (exampleWorld exampleFacts) "/queries/other.sql"
    ≠ pkgerOpen (queriesOnlyWorld exampleFacts) "/queries/other.sql"
  ∧ Generate (exampleWorld exampleFacts) "postgres://db" (Some [22])
    = Generate (queriesOnlyWorld exampleFacts) "postgres://db" (Some [22]).
Proof.
  assert (∀ filename, filename ∈ queryFiles →
            pkgerOpen (exampleWorld exampleFacts) filename
            = pkgerOpen (queriesOnlyWorld exampleFacts) filename) as Hfiles.
  { intros filename Hin. simpl. by rewrite (bool_decide_eq_true_2 _ Hin). }
  split; [exact Hfiles|]. split; [discriminate|].
  apply (Generate_reads_three_files (exampleWorld exampleFacts)
           (queriesOnlyWorld exampleFacts) "postgres://db" (Some [22]));
    try reflexivity.
  exact Hfiles.
Defined.

Lemma Generate_hides_load_failure_witness :
  (sqlOpen (noFunctionsWorld exampleFacts) "postgres://db" = None
   ∧ dbPing (noFunctionsWorld exampleFacts) = None
   ∧ loadQuery (noFunctionsWorld exampleFacts) "rfc1918"
     = Err (errWrap (errNew "file does not exist")
              "Failed to open /queries/rfc1918.sql"))
  ∧ Generate (noFunctionsWorld exampleFacts) "postgres://db" None
    = Err (errWrap (errNew "Failed to load sql for is_rfc1918block")
             "Failed to install fixture functions").
Proof.
  split; [split_and!; reflexivity|].
  apply (Generate_hides_load_failure (noFunctionsWorld exampleFacts)
           "postgres://db" None); [reflexivity|reflexivity|].
  intros text. vm_compute. discriminate.
Defined.

Lemma Generate_without_facts_witness :
  (sqlOpen (exampleWorld []) "postgres://db" = None
   ∧ dbPing (exampleWorld []) = None
   ∧ installDbFunctions (exampleWorld []) = Ok ()
   ∧ runSecurityGroupQuery (exampleWorld []) = Ok [])
  ∧ (∀ report, Generate (exampleWorld []) "postgres://db" None ≠ Ok report)
  ∧ (Generate (exampleWorld []) "postgres://db" None = Panic ↔
     ∃ query endDate organization rest,
       loadQuery (exampleWorld []) "most_recent_import" = Ok query
       ∧ queryImports (exampleWorld []) query
         = inr (inr (endDate, organization) :: rest))
  ∧ (∀ err, Generate (exampleWorld []) "postgres://db" None = Err err →
       ∃ cause, err = errWrap cause "Failed to load metadata"
         ∧ loadMetadata (exampleWorld []) [] = Err cause).
Proof.
  split; [split_and!; reflexivity|].
  apply (Generate_without_facts (exampleWorld []) "postgres://db" None);
    reflexivity.
Defined.

Lemma status_ignores_ports_witness :
  ((isDefault factA = true ∨ inUse factA = false ∨ isRestricted factA = true)
   ∧ analyzeRow factA [22] = Ok rowA
   ∧ analyzeRow factA [443]
     = Ok {| Arn := Arn rowA; Name := Name rowA; Status := "red";
             PublicIps := PublicIps rowA; InUse := true; IsDefault := true;
             Notes := ["Contains 1 public IP address(es)"] |})
  ∧ Status rowA = "red".
Proof.
  split; [split_and!; [by left|reflexivity|reflexivity]|].
  apply (status_ignores_ports factA [22] [443] rowA
           {| Arn := Arn rowA; Name := Name rowA; Status := "red";
              PublicIps := PublicIps rowA; InUse := true; IsDefault := true;
              Notes := ["Contains 1 public IP address(es)"] |});
    [by left|reflexivity|reflexivity].
Defined.

Lemma arnRegion_bounds_witness :
  (arnRegion (arn factShort) = Panic ↔ (countByte ":" (arn factShort) < 3)%nat)
  ∧ (∀ err, arnRegion (arn factShort) ≠ Err err)
  ∧ arnRegion (arn factShort) = Panic
  ∧ arnRegion (arn factZ) = Ok "us-east-1".
Proof.
  split; [apply (proj1 (arnRegion_bounds (arn factShort)))|].
  split; [apply (proj2 (arnRegion_bounds (arn factShort)))|].
  split; reflexivity.
Defined.

Lemma arnRegion_between_colons_witness :
  arnRegion (arn factZ) = Ok "us-east-1"
  ∧ ∃ p0 p1 p2 rest,
      Forall (λ field, countByte ":" field = 0%nat)
        (p0 :: p1 :: p2 :: "us-east-1" :: rest)
      ∧ arn factZ = Join (p0 :: p1 :: p2 :: "us-east-1" :: rest) ":".
Proof.
  split; [reflexivity|].
  apply (proj1 (arnRegion_between_colons (arn factZ) "us-east-1")).
  reflexivity.
Defined.

Lemma analyzeSecurityGroupResults_app_witness :
  analyzeSecurityGroupResults ([factB; factA] ++ [factZ]) [22]
  = (rows1 ← analyzeSecurityGroupResults [factB; factA] [22];
     rows2 ← analyzeSecurityGroupResults [factZ] [22];
     Ok (rows1 ++ rows2))
  ∧ analyzeSecurityGroupResults ([factB; factA] ++ [factZ]) [22]
    = Ok ([rowB; rowA] ++ [rowZ]).
Proof.
  split; [|reflexivity].
  apply (analyzeSecurityGroupResults_app [factB; factA] [factZ] [22]).
Defined.

Lemma analyzeSecurityGroupResults_succeeds_witness :
  ((∃ rows, analyzeSecurityGroupResults [factB; factBad; factZ] [22] = Ok rows)
   ↔ Forall (λ fact, ∀ first rest, portRanges fact = first :: rest →
                       ∃ mr, FromString first = inr mr)
       [factB; factBad; factZ])
  ∧ analyzeSecurityGroupResults [factB; factBad; factZ] [22] ≠ Panic
  ∧ FromString "5-2" = inl (multirange.parseError "5-2").
Proof.
  split; [apply (proj1 (analyzeSecurityGroupResults_succeeds
                          [factB; factBad; factZ] [22]))|].
  split; [apply (proj2 (analyzeSecurityGroupResults_succeeds
                          [factB; factBad; factZ] [22]))|].
  reflexivity.
Defined.

Lemma sortRowsLess_panics_witness :
  (sortRowsLess rowA rowZ = Panic ↔
   Status rowA = Status rowZ
   ∧ ((countByte ":" (Arn rowA) < 3)%nat ∨ (countByte ":" (Arn rowZ) < 3)%nat))
  ∧ (∀ err, sortRowsLess rowA rowZ ≠ Err err)
  ∧ sortRowsLess rowA rowZ = Ok false.
Proof.
  split; [apply (proj1 (sortRowsLess_panics rowA rowZ))|].
  split; [apply (proj2 (sortRowsLess_panics rowA rowZ))|].
  reflexivity.
Defined.

End ExtraExamples.
